(** * RecapKt benchmarking: [calculate_mcp_metrics.py]

    A shallow embedding of [src/benchmarking/calculate_mcp_metrics.py]:
    the descriptive statistics [MetricStats.from_values], the raw-sample
    buffers, the pairwise tally and the replay driver
    [CalculateMCPMetrics].

    Python [float] and numpy [float64] are IEEE-754 binary64, which is what
    Rocq's primitive [float] is, so scores are kept as binary64 values and
    the statistics are computed with the rounding the code has.  Python
    lists are Rocq lists in the same order ([append] adds at the end, [pop]
    removes the last element).  Dictionaries with string keys are
    [gmap string _].  Methods that mutate [self] or call a collaborator are
    computations in a state-and-exception monad; a raised exception keeps
    the state reached so far, as in Python. *)

From Stdlib Require Import Floats ZArith Uint63 String.
From stdpp Require Import gmap strings list fin_maps pretty.

Local Open Scope string_scope.
Local Open Scope list_scope.

(** ** Binary64 helpers *)

Module F64.

(** [float(n)] for a list length. *)
Definition of_nat (n : nat) : float :=
  PrimFloat.of_uint63 (Uint63.of_Z (Z.of_nat n)).

Definition le (a b : float) : Prop := (a <=? b)%float = true.

Definition not_nan (a : float) : Prop := PrimFloat.is_nan a = false.

End F64.

(** ** numpy reductions used by [MetricStats.from_values]

    [np.mean] is [add.reduce / N]; [np.std] (ddof = 0) is
    [sqrt (add.reduce ((x - mean) * (x - mean)) / N)]; [np.min] and [np.max]
    are [minimum.reduce] and [maximum.reduce], which propagate NaN.

    [add.reduce] on a contiguous float64 array starts from the identity 0
    and adds numpy's pairwise sum of the array: fewer than eight elements
    are added left to right; up to 128 elements are added into eight
    running sums, which are then combined in pairs, and the elements
    after the last full block of eight are added at the end; a longer
    array is split in two at a multiple of eight.  (Only the sign of a
    sum that is zero depends on the identity being 0 and not -0.) *)

Module np.

Definition lanes : Type :=
  (float * float * float * float * float * float * float * float)%type.

(** [for (i = 8; i < n - (n % 8); i += 8) { r[0] += a[i]; ... r[7] += a[i + 7]; }]:
    what is left of the array is returned with the running sums. *)
Fixpoint unrolled (r : lanes) (a : list float) : lanes * list float :=
  match a with
  | x0 :: x1 :: x2 :: x3 :: x4 :: x5 :: x6 :: x7 :: rest =>
      let '(r0, r1, r2, r3, r4, r5, r6, r7) := r in
      unrolled (r0 + x0, r1 + x1, r2 + x2, r3 + x3,
                r4 + x4, r5 + x5, r6 + x6, r7 + x7)%float rest
  | _ => (r, a)
  end.

(** The pairwise sum of at most 128 elements. *)
Definition block_sum (a : list float) : float :=
  match a with
  | x0 :: x1 :: x2 :: x3 :: x4 :: x5 :: x6 :: x7 :: rest =>
      let '((r0, r1, r2, r3, r4, r5, r6, r7), tail) :=
        unrolled (x0, x1, x2, x3, x4, x5, x6, x7) rest in
      fold_left PrimFloat.add tail
        (((r0 + r1) + (r2 + r3)) + ((r4 + r5) + (r6 + r7)))%float
  | _ => fold_left PrimFloat.add a 0%float
  end.

(** The recursion halves the array, so the length of the array is
    fuel enough. *)
Fixpoint pairwise_sum (fuel : nat) (a : list float) : float :=
  let n := length a in
  if (n <=? 128)%nat then block_sum a
  else
    match fuel with
    | 0 => block_sum a
    | S fuel' =>
        let n2 := n / 2 - (n / 2) mod 8 in
        (pairwise_sum fuel' (take n2 a) + pairwise_sum fuel' (drop n2 a))%float
    end.

Definition sum (values : list float) : float :=
  (0 + pairwise_sum (length values) values)%float.

Definition mean (values : list float) : float :=
  (sum values / F64.of_nat (length values))%float.

Definition var (values : list float) : float :=
  let arrmean := mean values in
  let x := map (fun v => (v - arrmean)%float) values in
  (sum (map (fun d => (d * d)%float) x) / F64.of_nat (length values))%float.

Definition std (values : list float) : float :=
  PrimFloat.sqrt (var values).

(** One step of the reduction: the smaller (the larger) operand, a NaN if
    there is one; of two equal operands (zeros of either sign) the later
    one is kept. *)
Definition minimum (a b : float) : float :=
  if (a <? b)%float || PrimFloat.is_nan a then a else b.

Definition maximum (a b : float) : float :=
  if (b <? a)%float || PrimFloat.is_nan a then a else b.

(** [np.min] and [np.max] of the non-empty array [v0 :: rest]. *)
Definition min (v0 : float) (rest : list float) : float :=
  fold_left minimum rest v0.

Definition max (v0 : float) (rest : list float) : float :=
  fold_left maximum rest v0.

End np.

(** ** The dataclasses *)

Module RawSemanticData.
Record t := mk {
  precision : list float;
  recall : list float;
  f1 : list float
}.
Definition new : t := mk [] [] [].
End RawSemanticData.

Module RawLLMData.
Record t := mk {
  faithfulness : list float;
  informativeness : list float;
  coherency : list float
}.
Definition new : t := mk [] [] [].
End RawLLMData.

Module MetricStats.
Record t := mk {
  mean : float;
  std : float;
  min : float;
  max : float;
  count : nat
}.

(** [cls()]: every field at its default. *)
Definition new : t := mk 0 0 0 0 0.

Definition from_values (values : list float) : t :=
  match values with
  | [] => new
  | v0 :: rest =>
      {| mean := np.mean values;
         std := np.std values;
         min := np.min v0 rest;
         max := np.max v0 rest;
         count := length values |}
  end.
End MetricStats.

Module SystemResults.
Record t := mk {
  semantic_precision : MetricStats.t;
  semantic_recall : MetricStats.t;
  semantic_f1 : MetricStats.t;
  llm_faithfulness : MetricStats.t;
  llm_informativeness : MetricStats.t;
  llm_coherency : MetricStats.t
}.
End SystemResults.

Module PairwiseResults.
Record t := mk {
  faithfulness : gmap string nat;
  informativeness : gmap string nat;
  coherency : gmap string nat
}.

(** The [default_factory] of each field. *)
Definition zero_counts : gmap string nat :=
  {[ "recsum" := 0; "baseline" := 0; "draw" := 0 ]}.

Definition new : t := mk zero_counts zero_counts zero_counts.

(** [sum(d.values())]. *)
Definition sum_values (d : gmap string nat) : nat :=
  map_fold (fun _ v acc => acc + v) 0 d.

Definition get_total_count (self : t) : nat :=
  sum_values (faithfulness self).
End PairwiseResults.

(** The [metadata] dictionary of a report: four fixed keys. *)
Module Metadata.
Record t := mk {
  timestamp : string;
  n_samples : Z;
  message_count : nat;
  version : string
}.
End Metadata.

Module MCPResults.
Record t := mk {
  metadata : Metadata.t;
  recsum_results : SystemResults.t;
  baseline_results : SystemResults.t;
  pairwise_results : PairwiseResults.t
}.
End MCPResults.

(** ** Values exchanged with the collaborators

    The dataset, the two dialogue systems and the two scorers are other
    modules of the repository; this file uses only the attributes below. *)

(** Modelled from the spec: the message class of the dataset module, a
    turn [{role, text}]; the code reads its [message] attribute. *)
Record Message := mkMessage {
  role : string;
  message : string
}.

(** Modelled from the spec: the session class of the dataset module; the
    code reads and pops its [messages] list. *)
Record Session := mkSession {
  messages : list Message
}.

(** Modelled from the spec: [ComparisonResult] of the judgment scorer, the
    ordinal result first-better / second-better / tie. *)
Inductive ComparisonResult :=
| RESPONSE_1_BETTER
| RESPONSE_2_BETTER
| TIE.

#[global] Instance ComparisonResult_eq_dec : EqDecision ComparisonResult.
Proof. solve_decision. Defined.

(** What [compute_similarity] returns. *)
Module SemanticScore.
Record t := mk {
  precision : float;
  recall : float;
  f1 : float
}.
End SemanticScore.

(** What [evaluate_single] returns. *)
Module SingleScore.
Record t := mk {
  faithfulness_score : float;
  informativeness_score : float;
  coherency_score : float
}.
End SingleScore.

(** What [evaluate_pairwise] returns. *)
Module PairwiseScore.
Record t := mk {
  faithfulness : ComparisonResult;
  informativeness : ComparisonResult;
  coherency : ComparisonResult
}.
End PairwiseScore.

(** The three attribute names iterated by [_update_pairwise_counts]. *)
Inductive Metric := Faithfulness | Informativeness | Coherency.

#[global] Instance Metric_eq_dec : EqDecision Metric.
Proof. solve_decision. Defined.

Definition metrics : list Metric := [Faithfulness; Informativeness; Coherency].

(** [getattr(score, metric)]. *)
Definition score_attr (score : PairwiseScore.t) (metric : Metric) : ComparisonResult :=
  match metric with
  | Faithfulness => PairwiseScore.faithfulness score
  | Informativeness => PairwiseScore.informativeness score
  | Coherency => PairwiseScore.coherency score
  end.

(** [getattr(self._pairwise_data, metric)], and the store into the
    dictionary it returns. *)
Definition tally_attr (p : PairwiseResults.t) (metric : Metric) : gmap string nat :=
  match metric with
  | Faithfulness => PairwiseResults.faithfulness p
  | Informativeness => PairwiseResults.informativeness p
  | Coherency => PairwiseResults.coherency p
  end.

Definition set_tally_attr (metric : Metric) (d : gmap string nat)
    (p : PairwiseResults.t) : PairwiseResults.t :=
  match metric with
  | Faithfulness =>
      PairwiseResults.mk d (PairwiseResults.informativeness p) (PairwiseResults.coherency p)
  | Informativeness =>
      PairwiseResults.mk (PairwiseResults.faithfulness p) d (PairwiseResults.coherency p)
  | Coherency =>
      PairwiseResults.mk (PairwiseResults.faithfulness p) (PairwiseResults.informativeness p) d
  end.

(** The external calls.  Each may read and change a state [W] of its own
    (model weights, a judge service, the random generator, the clock) and
    may raise, which is [None].  The dialogue systems receive the dialogue
    as it stands and return a response without changing it. *)
Class Collaborators (W : Type) := {
  (** [self.recsum.process_dialogue(dialogue, query).response] *)
  recsum_process_dialogue : list Session -> string -> W -> option string * W;
  (** [self.baseline.process_dialogue(dialogue, query)] *)
  baseline_process_dialogue : list Session -> string -> W -> option string * W;
  (** [self.semantic_scorer.compute_similarity(response, ideal)] *)
  compute_similarity : string -> string -> W -> option SemanticScore.t * W;
  (** [self.llm_scorer.evaluate_single(context, memory, response)] *)
  evaluate_single : string -> string -> string -> W -> option SingleScore.t * W;
  (** [self.llm_scorer.evaluate_pairwise(context, memory, first, second)] *)
  evaluate_pairwise :
    string -> string -> string -> string -> W -> option PairwiseScore.t * W;
  (** [random.random() < 0.5] *)
  random_below_half : W -> bool * W;
  (** [str(session)] *)
  session_str : Session -> string;
  (** [datetime.now().isoformat()] *)
  now_isoformat : W -> string * W;
  (** [print(line)], taken not to raise *)
  print : string -> W -> W;
  (** [f"{x:.<digits>f}"] *)
  format_float : nat -> float -> string;
  (** [datetime.now().strftime("%Y%m%d_%H%M%S")] *)
  now_strftime : W -> string * W;
  (** [Path(filepath).parent.mkdir(parents=True, exist_ok=True)] *)
  mkdir_parent : string -> W -> option unit * W;
  (** [with open(filepath, "w", encoding="utf-8") as f:
       json.dump(results.to_dict(), f, indent=2, ensure_ascii=False)] *)
  json_dump : string -> MCPResults.t -> W -> option unit * W
}.

(** ** The calculator object *)

Module CalculateMCPMetrics.

(** [sessions] and [memory] are the two attributes of [self.dataset] the
    code uses.  [sessions] is the store of the dialogue objects: position
    [i] holds the object that both [self.dataset.sessions[i]] and the
    shallow copy made by [calculate] refer to. *)
Record t := mk {
  sessions : list (list Session);
  memory : list (list string);
  _recsum_semantic_data : RawSemanticData.t;
  _baseline_semantic_data : RawSemanticData.t;
  _recsum_llm_data : RawLLMData.t;
  _baseline_llm_data : RawLLMData.t;
  _pairwise_data : PairwiseResults.t;
  message_count : nat;
  n_samples : Z;
  _is_calculated : bool
}.

(** [__init__], on the dataset built for [n_samples]. *)
Definition init (dataset_sessions : list (list Session))
    (dataset_memory : list (list string)) (n : Z) : t :=
  {| sessions := dataset_sessions;
     memory := dataset_memory;
     _recsum_semantic_data := RawSemanticData.new;
     _baseline_semantic_data := RawSemanticData.new;
     _recsum_llm_data := RawLLMData.new;
     _baseline_llm_data := RawLLMData.new;
     _pairwise_data := PairwiseResults.new;
     message_count := 0;
     n_samples := n;
     _is_calculated := false |}.

Definition set_sessions (v : list (list Session)) (c : t) : t :=
  mk v (memory c) (_recsum_semantic_data c) (_baseline_semantic_data c)
     (_recsum_llm_data c) (_baseline_llm_data c) (_pairwise_data c)
     (message_count c) (n_samples c) (_is_calculated c).

Definition set_recsum_semantic (v : RawSemanticData.t) (c : t) : t :=
  mk (sessions c) (memory c) v (_baseline_semantic_data c)
     (_recsum_llm_data c) (_baseline_llm_data c) (_pairwise_data c)
     (message_count c) (n_samples c) (_is_calculated c).

Definition set_baseline_semantic (v : RawSemanticData.t) (c : t) : t :=
  mk (sessions c) (memory c) (_recsum_semantic_data c) v
     (_recsum_llm_data c) (_baseline_llm_data c) (_pairwise_data c)
     (message_count c) (n_samples c) (_is_calculated c).

Definition set_recsum_llm (v : RawLLMData.t) (c : t) : t :=
  mk (sessions c) (memory c) (_recsum_semantic_data c) (_baseline_semantic_data c)
     v (_baseline_llm_data c) (_pairwise_data c)
     (message_count c) (n_samples c) (_is_calculated c).

Definition set_baseline_llm (v : RawLLMData.t) (c : t) : t :=
  mk (sessions c) (memory c) (_recsum_semantic_data c) (_baseline_semantic_data c)
     (_recsum_llm_data c) v (_pairwise_data c)
     (message_count c) (n_samples c) (_is_calculated c).

Definition set_pairwise (v : PairwiseResults.t) (c : t) : t :=
  mk (sessions c) (memory c) (_recsum_semantic_data c) (_baseline_semantic_data c)
     (_recsum_llm_data c) (_baseline_llm_data c) v
     (message_count c) (n_samples c) (_is_calculated c).

Definition set_message_count (v : nat) (c : t) : t :=
  mk (sessions c) (memory c) (_recsum_semantic_data c) (_baseline_semantic_data c)
     (_recsum_llm_data c) (_baseline_llm_data c) (_pairwise_data c)
     v (n_samples c) (_is_calculated c).

Definition set_is_calculated (v : bool) (c : t) : t :=
  mk (sessions c) (memory c) (_recsum_semantic_data c) (_baseline_semantic_data c)
     (_recsum_llm_data c) (_baseline_llm_data c) (_pairwise_data c)
     (message_count c) (n_samples c) v.

End CalculateMCPMetrics.

Import CalculateMCPMetrics.

(** ** Python list helpers *)

(** [l.pop()]: the last element and the list without it; [None] on the
    empty list (IndexError). *)
Definition list_pop {A} (l : list A) : option (A * list A) :=
  match last l with
  | Some x => Some (x, removelast l)
  | None => None
  end.

(** [l[-1] = x] on a non-empty list (the in-place change of the object at
    the last position). *)
Definition set_last {A} (x : A) (l : list A) : list A :=
  <[pred (length l) := x]> l.

(** ** The state-and-exception monad *)

Inductive Exception :=
| IndexError        (** index out of range, pop from an empty list *)
| KeyError          (** a dictionary key is missing *)
| ExternalError     (** raised inside a collaborator *)
| LoopBound.        (** not a Python exception: the iteration bound of the
                        model of [while] was reached (shown unreachable) *)

Inductive Outcome (A : Type) :=
| Returns (a : A)
| Raises (e : Exception).
Arguments Returns {A} a.
Arguments Raises {A} e.

Section Harness.

Context {W : Type} `{Collaborators W}.

Record St := mkSt {
  self : CalculateMCPMetrics.t;
  world : W
}.

Definition M (A : Type) : Type := St -> Outcome A * St.

Definition ret {A} (a : A) : M A := fun st => (Returns a, st).

Definition bind {A B} (m : M A) (k : A -> M B) : M B :=
  fun st =>
    match m st with
    | (Returns a, st') => k a st'
    | (Raises e, st') => (Raises e, st')
    end.

Definition raise {A} (e : Exception) : M A := fun st => (Raises e, st).

(** Read an attribute of [self]. *)
Definition get {A} (f : CalculateMCPMetrics.t -> A) : M A :=
  fun st => (Returns (f (self st)), st).

(** Assign to an attribute of [self]. *)
Definition modify (f : CalculateMCPMetrics.t -> CalculateMCPMetrics.t) : M unit :=
  fun st => (Returns tt, mkSt (f (self st)) (world st)).

(** A call that may raise. *)
Definition call {A} (f : W -> option A * W) : M A :=
  fun st =>
    match f (world st) with
    | (Some a, w) => (Returns a, mkSt (self st) w)
    | (None, w) => (Raises ExternalError, mkSt (self st) w)
    end.

(** A call that cannot raise. *)
Definition ask {A} (f : W -> A * W) : M A :=
  fun st => let (a, w) := f (world st) in (Returns a, mkSt (self st) w).

(** A partial lookup: [None] raises [e]. *)
Definition lookup_or {A} (e : Exception) (o : option A) : M A :=
  match o with
  | Some a => ret a
  | None => raise e
  end.

End Harness.

Arguments St W : clear implicits.
Arguments M W A : clear implicits.

Declare Scope py_scope.
Delimit Scope py_scope with py.
Notation "x <~ m ; k" := (bind m (fun x => k))
  (at level 100, m at next level, k at level 200, right associativity) : py_scope.
Notation "m ;' k" := (bind m (fun _ => k))
  (at level 100, k at level 200, right associativity) : py_scope.

Local Open Scope py_scope.

(** ** The methods of [CalculateMCPMetrics] *)

Section Methods.

Context {W : Type} `{Collaborators W}.

(** [dialogue] as it stands; [dialogue] is the position of the object in
    the store. *)
Definition the_dialogue (dialogue : nat) : M W (list Session) :=
  ss <~ get sessions;
  lookup_or IndexError (ss !! dialogue).

(** [dialogue[-1]] *)
Definition dialogue_last (dialogue : nat) : M W Session :=
  d <~ the_dialogue dialogue;
  lookup_or IndexError (last d).

(** [dialogue[-1].messages.pop()] *)
Definition messages_pop (dialogue : nat) : M W Message :=
  d <~ the_dialogue dialogue;
  s <~ lookup_or IndexError (last d);
  popped <~ lookup_or IndexError (list_pop (messages s));
  let '(m, rest) := popped in
  modify (fun c => set_sessions (<[dialogue := set_last (mkSession rest) d]> (sessions c)) c);'
  ret m.

(** [self.dataset.memory[dialogue_index][-1]] *)
Definition memory_last (dialogue_index : nat) : M W string :=
  mem <~ get memory;
  row <~ lookup_or IndexError (mem !! dialogue_index);
  lookup_or IndexError (last row).

Definition append_recsum_semantic
    (f : RawSemanticData.t -> RawSemanticData.t) : M W unit :=
  modify (fun c => set_recsum_semantic (f (_recsum_semantic_data c)) c).

Definition append_baseline_semantic
    (f : RawSemanticData.t -> RawSemanticData.t) : M W unit :=
  modify (fun c => set_baseline_semantic (f (_baseline_semantic_data c)) c).

Definition append_recsum_llm (f : RawLLMData.t -> RawLLMData.t) : M W unit :=
  modify (fun c => set_recsum_llm (f (_recsum_llm_data c)) c).

Definition append_baseline_llm (f : RawLLMData.t -> RawLLMData.t) : M W unit :=
  modify (fun c => set_baseline_llm (f (_baseline_llm_data c)) c).

Definition recall_append (x : float) (d : RawSemanticData.t) :=
  RawSemanticData.mk (RawSemanticData.precision d)
    (RawSemanticData.recall d ++ [x]) (RawSemanticData.f1 d).

Definition precision_append (x : float) (d : RawSemanticData.t) :=
  RawSemanticData.mk (RawSemanticData.precision d ++ [x])
    (RawSemanticData.recall d) (RawSemanticData.f1 d).

Definition f1_append (x : float) (d : RawSemanticData.t) :=
  RawSemanticData.mk (RawSemanticData.precision d)
    (RawSemanticData.recall d) (RawSemanticData.f1 d ++ [x]).

Definition faithfulness_append (x : float) (d : RawLLMData.t) :=
  RawLLMData.mk (RawLLMData.faithfulness d ++ [x])
    (RawLLMData.informativeness d) (RawLLMData.coherency d).

Definition informativeness_append (x : float) (d : RawLLMData.t) :=
  RawLLMData.mk (RawLLMData.faithfulness d)
    (RawLLMData.informativeness d ++ [x]) (RawLLMData.coherency d).

Definition coherency_append (x : float) (d : RawLLMData.t) :=
  RawLLMData.mk (RawLLMData.faithfulness d)
    (RawLLMData.informativeness d) (RawLLMData.coherency d ++ [x]).

Definition _update_semantic_scores
    (recsum_response baseline_response ideal_response : string) : M W unit :=
  recsum_score <~ call (compute_similarity recsum_response ideal_response);
  append_recsum_semantic (recall_append (SemanticScore.recall recsum_score));'
  append_recsum_semantic (precision_append (SemanticScore.precision recsum_score));'
  append_recsum_semantic (f1_append (SemanticScore.f1 recsum_score));'
  baseline_score <~ call (compute_similarity baseline_response ideal_response);
  append_baseline_semantic (recall_append (SemanticScore.recall baseline_score));'
  append_baseline_semantic (precision_append (SemanticScore.precision baseline_score));'
  append_baseline_semantic (f1_append (SemanticScore.f1 baseline_score)).

Definition _update_llm_single_scores
    (recsum_response baseline_response context memory : string) : M W unit :=
  recsum_score <~ call (evaluate_single context memory recsum_response);
  append_recsum_llm (faithfulness_append (SingleScore.faithfulness_score recsum_score));'
  append_recsum_llm
    (informativeness_append (SingleScore.informativeness_score recsum_score));'
  append_recsum_llm (coherency_append (SingleScore.coherency_score recsum_score));'
  baseline_score <~ call (evaluate_single context memory baseline_response);
  append_baseline_llm
    (faithfulness_append (SingleScore.faithfulness_score baseline_score));'
  append_baseline_llm
    (informativeness_append (SingleScore.informativeness_score baseline_score));'
  append_baseline_llm (coherency_append (SingleScore.coherency_score baseline_score)).

(** [result_dict[key] += 1] on [getattr(self._pairwise_data, metric)]. *)
Definition result_dict_incr (metric : Metric) (key : string) : M W unit :=
  result_dict <~ get (fun c => tally_attr (_pairwise_data c) metric);
  n <~ lookup_or KeyError (result_dict !! key);
  modify (fun c =>
    set_pairwise (set_tally_attr metric (<[key := n + 1]> result_dict) (_pairwise_data c)) c).

(** The body of [for metric in metrics]. *)
Definition count_metric (score : PairwiseScore.t) (recsum_first : bool)
    (metric : Metric) : M W unit :=
  let score_value := score_attr score metric in
  if decide (score_value = RESPONSE_1_BETTER) then
    let winner := if recsum_first then "recsum" else "baseline" in
    result_dict_incr metric winner
  else if decide (score_value = RESPONSE_2_BETTER) then
    let winner := if recsum_first then "baseline" else "recsum" in
    result_dict_incr metric winner
  else
    result_dict_incr metric "draw".

(** [for x in l: body x] *)
Fixpoint for_each {A} (l : list A) (body : A -> M W unit) : M W unit :=
  match l with
  | [] => ret tt
  | x :: l' => body x;' for_each l' body
  end.

Definition _update_pairwise_counts (score : PairwiseScore.t)
    (recsum_first : bool) : M W unit :=
  for_each metrics (count_metric score recsum_first).

Definition _update_llm_pairwise_scores
    (context memory recsum_response baseline_response : string) : M W unit :=
  randomize_order <~ ask random_below_half;
  if randomize_order : bool then
    score <~ call (evaluate_pairwise context memory recsum_response baseline_response);
    _update_pairwise_counts score true
  else
    score <~ call (evaluate_pairwise context memory baseline_response recsum_response);
    _update_pairwise_counts score false.

(** The body of the [while] loop of [_process_dialogue]: one turn. *)
Definition process_turn (dialogue dialogue_index : nat)
    (ideal_response : Message) : M W unit :=
  modify (fun c => set_message_count (message_count c + 1) c);'
  query <~ messages_pop dialogue;
  d <~ the_dialogue dialogue;
  recsum_response <~ call (recsum_process_dialogue d (message query));
  baseline_response <~ call (baseline_process_dialogue d (message query));
  _update_semantic_scores recsum_response baseline_response (message ideal_response);'
  s <~ dialogue_last dialogue;
  let context := session_str s in
  memory <~ memory_last dialogue_index;
  _update_llm_single_scores recsum_response baseline_response context memory;'
  _update_llm_pairwise_scores context memory recsum_response baseline_response.

(** [while dialogue[-1].messages: ...], bounded by [bound] iterations. *)
Fixpoint while_messages (bound : nat) (dialogue dialogue_index : nat)
    (ideal_response : Message) : M W unit :=
  s <~ dialogue_last dialogue;
  match messages s with
  | [] => ret tt
  | _ :: _ =>
      match bound with
      | 0 => raise LoopBound
      | S bound' =>
          process_turn dialogue dialogue_index ideal_response;'
          while_messages bound' dialogue dialogue_index ideal_response
      end
  end.

(** Every iteration pops one message, so the number of messages left
    after the ideal response is removed bounds the loop. *)
Definition _process_dialogue (dialogue dialogue_index : nat) : M W unit :=
  ideal_response <~ messages_pop dialogue;
  s <~ dialogue_last dialogue;
  while_messages (length (messages s)) dialogue dialogue_index ideal_response.

Definition print_line (line : string) : M W unit :=
  ask (fun w => (tt, print line w)).

(** [f"Processing dialogue {i + 1}/{len(dialogues)}"] *)
Definition processing_line (i total : nat) : string :=
  "Processing dialogue " +:+ pretty (i + 1) +:+ "/" +:+ pretty total.

(** The body of [for i, dialogue in enumerate(dialogues)], for
    [total] dialogues. *)
Definition calculate_step (total i : nat) : M W unit :=
  print_line (processing_line i total);'
  _process_dialogue i i.

(** [dialogues = self.dataset.sessions.copy()] copies the outer list
    only: [dialogues[i]] is the object at position [i] of the store. *)
Definition calculate : M W unit :=
  dialogues <~ get (fun c => seq 0 (length (sessions c)));
  for_each dialogues (calculate_step (length dialogues));'
  modify (set_is_calculated true).

Definition system_results (sem : RawSemanticData.t) (llm : RawLLMData.t)
    : SystemResults.t :=
  {| SystemResults.semantic_precision :=
       MetricStats.from_values (RawSemanticData.precision sem);
     SystemResults.semantic_recall :=
       MetricStats.from_values (RawSemanticData.recall sem);
     SystemResults.semantic_f1 :=
       MetricStats.from_values (RawSemanticData.f1 sem);
     SystemResults.llm_faithfulness :=
       MetricStats.from_values (RawLLMData.faithfulness llm);
     SystemResults.llm_informativeness :=
       MetricStats.from_values (RawLLMData.informativeness llm);
     SystemResults.llm_coherency :=
       MetricStats.from_values (RawLLMData.coherency llm) |}.

(** The [results] property. *)
Definition results : M W MCPResults.t :=
  calculated <~ get _is_calculated;
  (if calculated : bool then ret tt else calculate);'
  timestamp <~ ask now_isoformat;
  c <~ get id;
  ret {| MCPResults.metadata :=
           {| Metadata.timestamp := timestamp;
              Metadata.n_samples := n_samples c;
              Metadata.message_count := message_count c;
              Metadata.version := "1.0" |};
         MCPResults.recsum_results :=
           system_results (_recsum_semantic_data c) (_recsum_llm_data c);
         MCPResults.baseline_results :=
           system_results (_baseline_semantic_data c) (_baseline_llm_data c);
         MCPResults.pairwise_results := _pairwise_data c |}.

End Methods.

(** ** A deterministic set of collaborators, for running the model

    The world is a counter: every draw of the random flag and every read
    of the clock advances it.  Every call returns a constant; under
    [flaky] the candidate system raises on the query ["boom"]. *)

Module Stub.

Definition recsum (d : list Session) (query : string) (w : nat) : option string * nat :=
  (Some "candidate", w).

Definition recsum_flaky (d : list Session) (query : string) (w : nat)
    : option string * nat :=
  if decide (query = "boom") then (None, w) else (Some "candidate", w).

Definition baseline (d : list Session) (query : string) (w : nat) : option string * nat :=
  (Some "baseline", w).

Definition similarity (response ideal : string) (w : nat)
    : option SemanticScore.t * nat :=
  (Some (SemanticScore.mk 0.5 0.5 0.5), w).

Definition single (context memory response : string) (w : nat)
    : option SingleScore.t * nat :=
  if decide (response = "candidate")
  then (Some (SingleScore.mk 4 4 4), w)
  else (Some (SingleScore.mk 3 3 3), w).

(** A judge with a fixed positional preference: the first response is
    more faithful, the second more informative, coherency is a tie. *)
Definition pairwise (context memory first second : string) (w : nat)
    : option PairwiseScore.t * nat :=
  (Some (PairwiseScore.mk RESPONSE_1_BETTER RESPONSE_2_BETTER TIE), w).

Definition coin (w : nat) : bool * nat := (Nat.even w, S w).

Definition clock (w : nat) : string * nat := (pretty w, S w).

Definition steady : Collaborators nat := {|
  recsum_process_dialogue := recsum;
  baseline_process_dialogue := baseline;
  compute_similarity := similarity;
  evaluate_single := single;
  evaluate_pairwise := pairwise;
  random_below_half := coin;
  session_str := fun _ => "context";
  now_isoformat := clock;
  print := fun _ w => w;
  format_float := fun _ _ => "-";
  now_strftime := fun w => ("20250101_000000", w);
  mkdir_parent := fun _ w => (Some tt, w);
  json_dump := fun _ _ w => (Some tt, w)
|}.

Definition flaky : Collaborators nat := {|
  recsum_process_dialogue := recsum_flaky;
  baseline_process_dialogue := baseline;
  compute_similarity := similarity;
  evaluate_single := single;
  evaluate_pairwise := pairwise;
  random_below_half := coin;
  session_str := fun _ => "context";
  now_isoformat := clock;
  print := fun _ w => w;
  format_float := fun _ _ => "-";
  now_strftime := fun w => ("20250101_000000", w);
  mkdir_parent := fun _ w => (Some tt, w);
  json_dump := fun _ _ w => (Some tt, w)
|}.

Definition user (text : string) : Message := mkMessage "user" text.

(** A dialogue of one session with three turns: two queries and the ideal
    response. *)
Definition three_turns : list Session :=
  [mkSession [user "q1"; user "q2"; user "ideal"]].

(** A dialogue whose second replayed query makes the candidate raise. *)
Definition boom_second : list Session :=
  [mkSession [user "boom"; user "q2"; user "ideal"]].

(** A dialogue whose final session has no message. *)
Definition no_message : list Session := [mkSession []].

Definition start (dataset : list (list Session)) : St nat :=
  mkSt (CalculateMCPMetrics.init dataset (map (fun _ => ["memory"]) dataset) 30) 0.


Definition one_dialogue : St nat := start [three_turns].

(** The verdict of [pairwise]. *)
Definition verdict : PairwiseScore.t :=
  PairwiseScore.mk RESPONSE_1_BETTER RESPONSE_2_BETTER TIE.

(** Python's [0.1]: the binary64 value nearest to one tenth. *)
Definition tenth : float := 0x1.999999999999ap-4%float.

End Stub.

(** ** Notions used in the statements *)

(** [post m st Q E]: started in [st], the computation [m] either returns
    [a] in a state [st'] with [Q a st'], or raises [e] in a state [st']
    with [E e st']. *)
Definition post {W A} (m : M W A) (st : St W)
    (Q : A -> St W -> Prop) (E : Exception -> St W -> Prop) : Prop :=
  match m st with
  | (Returns a, st') => Q a st'
  | (Raises e, st') => E e st'
  end.

(** A step relation on the calculator that [m] respects whatever its
    outcome. *)
Definition respects {W A} (R : relation CalculateMCPMetrics.t) (m : M W A) : Prop :=
  forall st, post m st (fun _ st' => R (self st) (self st'))
                       (fun _ st' => R (self st) (self st')).

(** The twelve raw-sample buffers: candidate then baseline, semantic then
    judgment. *)
Definition buffers (c : CalculateMCPMetrics.t) : list (list float) :=
  [ RawSemanticData.precision (_recsum_semantic_data c);
    RawSemanticData.recall (_recsum_semantic_data c);
    RawSemanticData.f1 (_recsum_semantic_data c);
    RawLLMData.faithfulness (_recsum_llm_data c);
    RawLLMData.informativeness (_recsum_llm_data c);
    RawLLMData.coherency (_recsum_llm_data c);
    RawSemanticData.precision (_baseline_semantic_data c);
    RawSemanticData.recall (_baseline_semantic_data c);
    RawSemanticData.f1 (_baseline_semantic_data c);
    RawLLMData.faithfulness (_baseline_llm_data c);
    RawLLMData.informativeness (_baseline_llm_data c);
    RawLLMData.coherency (_baseline_llm_data c) ].

(** Nothing collected so far is lost: every buffer of [c] is a prefix of
    the same buffer of [c']. *)
Definition retained (c c' : CalculateMCPMetrics.t) : Prop :=
  Forall2 prefix (buffers c) (buffers c').

(** What a computation working on the dialogues at the positions in
    [touched] may change: those dialogues, the buffers (by appending), the
    tally and the turn counter (by counting up). *)
Definition frame (touched : nat -> Prop) (c c' : CalculateMCPMetrics.t) : Prop :=
  length (sessions c') = length (sessions c) /\
  (forall j, ~ touched j -> sessions c' !! j = sessions c !! j) /\
  memory c' = memory c /\
  n_samples c' = n_samples c /\
  _is_calculated c' = _is_calculated c /\
  retained c c' /\
  message_count c <= message_count c'.

Definition only (i : nat) : nat -> Prop := fun j => j = i.

(** All twelve buffers hold [n] samples. *)
Definition aligned (n : nat) (c : CalculateMCPMetrics.t) : Prop :=
  Forall (fun b => length b = n) (buffers c).

(** Every buffer of [c'] is the same buffer of [c] with [k] more
    samples. *)
Definition grown (k : nat) (c c' : CalculateMCPMetrics.t) : Prop :=
  Forall2 (fun b b' => exists more, b' = b ++ more /\ length more = k)
    (buffers c) (buffers c').

(** A counter dictionary with the three keys it was created with. *)
Definition counts_wf (d : gmap string nat) : Prop :=
  is_Some (d !! "recsum") /\ is_Some (d !! "baseline") /\ is_Some (d !! "draw").

Definition tally_wf (p : PairwiseResults.t) : Prop :=
  forall metric, counts_wf (tally_attr p metric).

(** The counter of [key] for [metric]. *)
Definition counter (p : PairwiseResults.t) (metric : Metric) (key : string) : nat :=
  default 0 (tally_attr p metric !! key).

(** [k] more judgments are counted in [p'] than in [p], for each metric. *)
Definition judged (k : nat) (p p' : PairwiseResults.t) : Prop :=
  tally_wf p' /\
  forall metric,
    PairwiseResults.sum_values (tally_attr p' metric)
    = PairwiseResults.sum_values (tally_attr p metric) + k.

(** The key [_update_pairwise_counts] increments for a judgment
    [score_value] on a pair presented candidate-first or baseline-first. *)
Definition winner (score_value : ComparisonResult) (recsum_first : bool) : string :=
  match score_value with
  | RESPONSE_1_BETTER => if recsum_first then "recsum" else "baseline"
  | RESPONSE_2_BETTER => if recsum_first then "baseline" else "recsum"
  | TIE => "draw"
  end.

(** The tally after one more judgment on [metric], and after one call of
    [_update_pairwise_counts]. *)
Definition count_in (score : PairwiseScore.t) (recsum_first : bool)
    (metric : Metric) (p : PairwiseResults.t) : PairwiseResults.t :=
  let key := winner (score_attr score metric) recsum_first in
  set_tally_attr metric (<[key := counter p metric key + 1]> (tally_attr p metric)) p.

Definition counted (score : PairwiseScore.t) (recsum_first : bool)
    (p : PairwiseResults.t) : PairwiseResults.t :=
  count_in score recsum_first Coherency
    (count_in score recsum_first Informativeness
       (count_in score recsum_first Faithfulness p)).

(** One more judgment [verdict] on a pair that was presented RecSum
    first, or baseline first, counted in the dictionary [d] of a metric:
    in [d'] the counter of the winner is one higher (first-is-better
    counts for the system that was first, second-is-better for the
    other one, a tie as a draw) and the two other counters are as they
    were. *)
Definition one_more (verdict : ComparisonResult) (recsum_first : bool)
    (d d' : gmap string nat) : Prop :=
  let old key := default 0 (d !! key) in
  let new key := default 0 (d' !! key) in
  match verdict, recsum_first with
  | RESPONSE_1_BETTER, true | RESPONSE_2_BETTER, false =>
      new "recsum" = old "recsum" + 1 /\
      new "baseline" = old "baseline" /\ new "draw" = old "draw"
  | RESPONSE_1_BETTER, false | RESPONSE_2_BETTER, true =>
      new "baseline" = old "baseline" + 1 /\
      new "recsum" = old "recsum" /\ new "draw" = old "draw"
  | TIE, _ =>
      new "draw" = old "draw" + 1 /\
      new "recsum" = old "recsum" /\ new "baseline" = old "baseline"
  end.

(** The calculator changes in its tally only. *)
Definition tally_only (c c' : CalculateMCPMetrics.t) : Prop :=
  c' = set_pairwise (_pairwise_data c') c.

(** None of the five collaborator calls ever raises. *)
Definition reliable {W : Type} `{Collaborators W} : Prop :=
  (forall d q w, (recsum_process_dialogue d q w).1 <> None) /\
  (forall d q w, (baseline_process_dialogue d q w).1 <> None) /\
  (forall r ideal w, (compute_similarity r ideal w).1 <> None) /\
  (forall ctx mem r w, (evaluate_single ctx mem r w).1 <> None) /\
  (forall ctx mem a b w, (evaluate_pairwise ctx mem a b w).1 <> None).

(** The dataset has a memory entry for the dialogue at [dialogue_index]. *)
Definition memory_ok (dialogue_index : nat) (c : CalculateMCPMetrics.t) : Prop :=
  exists row m, memory c !! dialogue_index = Some (row ++ [m]).

(** What must have gone wrong when a turn of a dialogue that still has a
    query raises [e]. *)
Definition fault {W : Type} `{Collaborators W} (dialogue_index : nat)
    (c : CalculateMCPMetrics.t) (e : Exception) : Prop :=
  match e with
  | ExternalError => ~ reliable
  | IndexError => ~ memory_ok dialogue_index c
  | KeyError => ~ tally_wf (_pairwise_data c)
  | LoopBound => False
  end.

(** The report [results] builds from the calculator [c] at the time
    [timestamp]. *)
Definition report (timestamp : string) (c : CalculateMCPMetrics.t) : MCPResults.t :=
  {| MCPResults.metadata :=
       {| Metadata.timestamp := timestamp;
          Metadata.n_samples := n_samples c;
          Metadata.message_count := message_count c;
          Metadata.version := "1.0" |};
     MCPResults.recsum_results :=
       system_results (_recsum_semantic_data c) (_recsum_llm_data c);
     MCPResults.baseline_results :=
       system_results (_baseline_semantic_data c) (_baseline_llm_data c);
     MCPResults.pairwise_results := _pairwise_data c |}.

(** ** Further notions *)


(** The number of turns the replay of the dialogue [d] takes: one for each
    message of its final session but the last. *)
Definition turns_of (d : list Session) : nat :=
  match last d with
  | Some s => length (messages s) - 1
  | None => 0
  end.

(** A dialogue with a final session that holds at least one message. *)
Definition replayable (d : list Session) : Prop :=
  exists pre s, d = pre ++ [s] /\ messages s <> [].


(** The twelve [count] fields of a report, in the order of [buffers]. *)
Definition report_counts (r : MCPResults.t) : list nat :=
  let counts (s : SystemResults.t) :=
    [ MetricStats.count (SystemResults.semantic_precision s);
      MetricStats.count (SystemResults.semantic_recall s);
      MetricStats.count (SystemResults.semantic_f1 s);
      MetricStats.count (SystemResults.llm_faithfulness s);
      MetricStats.count (SystemResults.llm_informativeness s);
      MetricStats.count (SystemResults.llm_coherency s) ] in
  counts (MCPResults.recsum_results r) ++ counts (MCPResults.baseline_results r).

(** Every buffer of [c'] is the same buffer of [c] or has one more
    sample. *)
Definition grown_at_most_one (c c' : CalculateMCPMetrics.t) : Prop :=
  Forall2 (fun b b' => b' = b \/ exists x, b' = b ++ [x]) (buffers c) (buffers c').

(** A NaN. *)
Definition is_NaN (x : float) : Prop := PrimFloat.is_nan x = true.

(** [total] is a floating-point sum of the values of the list: the values,
    and zeros, added in some order and some grouping, each addition
    rounded. *)
Inductive summed : list float -> float -> Prop :=
| summed_zero : summed [] 0%float
| summed_one x : summed [x] x
| summed_add l1 l2 a b : summed l1 a -> summed l2 b -> summed (l1 ++ l2) (a + b)%float
| summed_perm l l' a : l ≡ₚ l' -> summed l a -> summed l' a.

(** Eight running sums [r], which between them have added the values
    of [l]. *)
Definition lanes_summed (l : list float) (r : np.lanes) : Prop :=
  let '(r0, r1, r2, r3, r4, r5, r6, r7) := r in
  exists l0 l1 l2 l3 l4 l5 l6 l7,
    summed l0 r0 /\ summed l1 r1 /\ summed l2 r2 /\ summed l3 r3 /\
    summed l4 r4 /\ summed l5 r5 /\ summed l6 r6 /\ summed l7 r7 /\
    l ≡ₚ l0 ++ l1 ++ l2 ++ l3 ++ l4 ++ l5 ++ l6 ++ l7.


(** ** The external calls of a run *)

(** One external call, with its arguments and what it returned ([None]
    for a call that raised). *)
Inductive Call :=
| CallRecsum (dialogue : list Session) (query : string) (response : option string)
| CallBaseline (dialogue : list Session) (query : string) (response : option string)
| CallSimilarity (response ideal : string) (score : option SemanticScore.t)
| CallSingle (context memory response : string) (score : option SingleScore.t)
| CallPairwise (context memory first second : string) (score : option PairwiseScore.t)
| CallRandom (below_half : bool)
| CallNow (timestamp : string)
| CallPrint (line : string)
| CallStrftime (timestamp : string)
| CallMkdir (filepath : string) (made : option unit)
| CallDump (filepath : string) (results : MCPResults.t) (written : option unit).

(** The collaborators [H] with a log: every call is answered by [H] and
    written, with the answer, at the end of the log. *)
Definition logging {W A} (c : A -> Call) (f : W -> A * W) (wl : W * list Call)
    : A * (W * list Call) :=
  ((f wl.1).1, ((f wl.1).2, wl.2 ++ [c (f wl.1).1])).

Definition logged {W} (H : Collaborators W) : Collaborators (W * list Call) := {|
  recsum_process_dialogue d q := logging (CallRecsum d q) (recsum_process_dialogue d q);
  baseline_process_dialogue d q :=
    logging (CallBaseline d q) (baseline_process_dialogue d q);
  compute_similarity r ideal := logging (CallSimilarity r ideal) (compute_similarity r ideal);
  evaluate_single ctx mem r := logging (CallSingle ctx mem r) (evaluate_single ctx mem r);
  evaluate_pairwise ctx mem a b :=
    logging (CallPairwise ctx mem a b) (evaluate_pairwise ctx mem a b);
  random_below_half := logging CallRandom random_below_half;
  session_str := session_str;
  now_isoformat := logging CallNow now_isoformat;
  print line wl := (print line wl.1, wl.2 ++ [CallPrint line]);
  format_float := format_float;
  now_strftime := logging CallStrftime now_strftime;
  mkdir_parent filepath := logging (CallMkdir filepath) (mkdir_parent filepath);
  json_dump filepath results :=
    logging (CallDump filepath results) (json_dump filepath results)
|}.

(** A state of the logged run without its log. *)
Definition erase {W} (st : St (W * list Call)) : St W :=
  mkSt (self st) (world st).1.

(** The log of a state of the logged run. *)
Definition log_of {W} (st : St (W * list Call)) : list Call := (world st).2.

(** [m'], run with the log, does what [m] does without it. *)
Definition simulates {W A} (m' : M (W * list Call) A) (m : M W A) : Prop :=
  forall st, m (erase st) = ((m' st).1, erase (m' st).2).

(** The calls of one completed turn, in order, each with its answer: the
    dialogue [d] and the query to both systems; each response with the
    ideal response to the semantic scorer; each response to the judge;
    the random draw; the pair to the judge, RecSum first when the draw
    was below one half. *)
Definition turn_calls (d : list Session) (query ideal context memory : string)
    (recsum_response baseline_response : string)
    (recsum_semantic baseline_semantic : SemanticScore.t)
    (recsum_single baseline_single : SingleScore.t)
    (recsum_first : bool) (pairwise : PairwiseScore.t) : list Call :=
  [ CallRecsum d query (Some recsum_response);
    CallBaseline d query (Some baseline_response);
    CallSimilarity recsum_response ideal (Some recsum_semantic);
    CallSimilarity baseline_response ideal (Some baseline_semantic);
    CallSingle context memory recsum_response (Some recsum_single);
    CallSingle context memory baseline_response (Some baseline_single);
    CallRandom recsum_first;
    CallPairwise context memory
      (if recsum_first then recsum_response else baseline_response)
      (if recsum_first then baseline_response else recsum_response)
      (Some pairwise) ].

Section Traces.

Context {W : Type} {H : Collaborators W}.

(** The log of the replay of a dialogue whose final session still holds
    the messages [queries], after the ideal response was removed: one
    turn per message, the last message first; every turn gets the
    dialogue as it stands without its query, is scored against [ideal]
    and judged with the memory entry [memory]. *)
Inductive dialogue_trace (pre : list Session) (ideal memory : string)
    : list Message -> list Call -> Prop :=
| dialogue_trace_done : dialogue_trace pre ideal memory [] []
| dialogue_trace_turn rest q r b sr sb lr lb flag score tail :
    dialogue_trace pre ideal memory rest tail ->
    dialogue_trace pre ideal memory (rest ++ [q])
      (turn_calls (pre ++ [mkSession rest]) (message q) ideal
         (session_str (mkSession rest)) memory r b sr sb lr lb flag score ++ tail).

(** The log of the replay of the dialogues [dialogues], the first of
    which is at position [i] of a dataset of [total] dialogues with the
    memory [memory]: for each dialogue the line that announces it, then
    its turns, with the last message of its final session as the ideal
    response.  [k] is the number of turns. *)
Inductive replay_trace (total : nat) (memory : list (list string))
    : nat -> list (list Session) -> nat -> list Call -> Prop :=
| replay_trace_done i : replay_trace total memory i [] 0 []
| replay_trace_dialogue i pre queries ideal mem dialogues k turns tail :
    (queries <> [] -> exists row, memory !! i = Some (row ++ [mem])) ->
    dialogue_trace pre (message ideal) mem queries turns ->
    replay_trace total memory (S i) dialogues k tail ->
    replay_trace total memory i
      ((pre ++ [mkSession (queries ++ [ideal])]) :: dialogues)
      (length queries + k)
      (CallPrint (processing_line i total) :: turns ++ tail).

(** What an access to [results] does before it builds the report:
    nothing on a calculated object, the replay of the dataset otherwise.
    [calls] is what it adds to the log. *)
Definition replay_on_demand (st st' : St (W * list Call)) (calls : list Call) : Prop :=
  if _is_calculated (self st) then self st' = self st /\ calls = []
  else
    exists k,
      replay_trace (length (sessions (self st))) (memory (self st)) 0
        (sessions (self st)) k calls /\
      message_count (self st') = message_count (self st) + k.

End Traces.

(** ** Printing the report *)

(** [s * n] *)
Fixpoint str_mul (s : string) (n : nat) : string :=
  match n with
  | 0 => ""
  | S n' => s +:+ str_mul s n'
  end.

(** The line feed of ["\n"] and the sign of ["±"] (UTF-8). *)
Definition newline : string := String (Ascii.ascii_of_nat 10) EmptyString.

Definition plus_minus : string :=
  String (Ascii.ascii_of_nat 194) (String (Ascii.ascii_of_nat 177) EmptyString).

Definition ascii_upper (c : Ascii.ascii) : Ascii.ascii :=
  let n := Ascii.nat_of_ascii c in
  if ((97 <=? n) && (n <=? 122))%nat then Ascii.ascii_of_nat (n - 32) else c.

Definition ascii_lower (c : Ascii.ascii) : Ascii.ascii :=
  let n := Ascii.nat_of_ascii c in
  if ((65 <=? n) && (n <=? 90))%nat then Ascii.ascii_of_nat (n + 32) else c.

Fixpoint str_lower (s : string) : string :=
  match s with
  | EmptyString => EmptyString
  | String c rest => String (ascii_lower c) (str_lower rest)
  end.

(** [s.capitalize()] *)
Definition capitalize (s : string) : string :=
  match s with
  | EmptyString => EmptyString
  | String c rest => String (ascii_upper c) (str_lower rest)
  end.

(** [f"{s:<width}"] *)
Definition ljust (width : nat) (s : string) : string :=
  s +:+ str_mul " " (width - String.length s).

(** The attribute names iterated by [_print_llm_pairwise_results]. *)
Definition metric_name (metric : Metric) : string :=
  match metric with
  | Faithfulness => "faithfulness"
  | Informativeness => "informativeness"
  | Coherency => "coherency"
  end.

(** [wins / total_count * 100] on two counts, for [total_count] other
    than zero: the division of integers gives a float. *)
Definition percent (wins total_count : nat) : float :=
  (F64.of_nat wins / F64.of_nat total_count * 100)%float.

Section Printing.

Context {W : Type} {H : Collaborators W}.

(** [f"{stats.mean:.<digits>f} (±{stats.std:.<digits>f})"] *)
Definition mean_std (digits : nat) (stats : MetricStats.t) : string :=
  format_float digits (MetricStats.mean stats) +:+ " (" +:+ plus_minus
  +:+ format_float digits (MetricStats.std stats) +:+ ")".

Definition _print_semantic_results (results : MCPResults.t) : M W unit :=
  print_line (str_mul "=" 50);'
  print_line "SEMANTIC EVALUATION RESULTS";'
  print_line (str_mul "=" 50);'
  print_line
    ("RecSum    - Precision: "
     +:+ mean_std 4 (SystemResults.semantic_precision (MCPResults.recsum_results results))
     +:+ ", Recall: "
     +:+ mean_std 4 (SystemResults.semantic_recall (MCPResults.recsum_results results))
     +:+ ", F1: "
     +:+ mean_std 4 (SystemResults.semantic_f1 (MCPResults.recsum_results results)));'
  print_line
    ("Baseline  - Precision: "
     +:+ mean_std 4 (SystemResults.semantic_precision (MCPResults.baseline_results results))
     +:+ ", Recall: "
     +:+ mean_std 4 (SystemResults.semantic_recall (MCPResults.baseline_results results))
     +:+ ", F1: "
     +:+ mean_std 4 (SystemResults.semantic_f1 (MCPResults.baseline_results results)));'
  print_line "".

Definition _print_llm_single_results (results : MCPResults.t) : M W unit :=
  print_line (str_mul "=" 50);'
  print_line "LLM SINGLE EVALUATION RESULTS";'
  print_line (str_mul "=" 50);'
  print_line
    ("RecSum    - Faithfulness: "
     +:+ mean_std 2 (SystemResults.llm_faithfulness (MCPResults.recsum_results results))
     +:+ ", Informativeness: "
     +:+ mean_std 2 (SystemResults.llm_informativeness (MCPResults.recsum_results results))
     +:+ ", Coherency: "
     +:+ mean_std 2 (SystemResults.llm_coherency (MCPResults.recsum_results results)));'
  print_line
    ("Baseline  - Faithfulness: "
     +:+ mean_std 2 (SystemResults.llm_faithfulness (MCPResults.baseline_results results))
     +:+ ", Informativeness: "
     +:+ mean_std 2 (SystemResults.llm_informativeness (MCPResults.baseline_results results))
     +:+ ", Coherency: "
     +:+ mean_std 2 (SystemResults.llm_coherency (MCPResults.baseline_results results)));'
  print_line "".

(** [f"{wins}/{total_count} ({wins / total_count * 100:.1f}%)"] *)
Definition share (wins total_count : nat) : string :=
  pretty wins +:+ "/" +:+ pretty total_count
  +:+ " (" +:+ format_float 1 (percent wins total_count) +:+ "%)".

Definition _print_llm_pairwise_results (results : MCPResults.t) : M W unit :=
  let total_count :=
    PairwiseResults.get_total_count (MCPResults.pairwise_results results) in
  if decide (total_count = 0) then print_line "No pairwise evaluations completed."
  else
    print_line (str_mul "=" 50);'
    print_line "LLM PAIRWISE EVALUATION RESULTS";'
    print_line (str_mul "=" 50);'
    for_each metrics (fun metric =>
      let result_dict := tally_attr (MCPResults.pairwise_results results) metric in
      recsum_wins <~ lookup_or KeyError (result_dict !! "recsum");
      baseline_wins <~ lookup_or KeyError (result_dict !! "baseline");
      draws <~ lookup_or KeyError (result_dict !! "draw");
      print_line
        (ljust 15 (capitalize (metric_name metric))
         +:+ ": RecSum " +:+ share recsum_wins total_count
         +:+ ", Baseline " +:+ share baseline_wins total_count
         +:+ ", Draws " +:+ share draws total_count)).

(** The first line of [print_results]. *)
Definition processed_line (message_count : nat) : string :=
  newline +:+ "Processed " +:+ pretty message_count +:+ " messages" +:+ newline.

Definition print_results : M W unit :=
  message_count <~ get message_count;
  print_line (processed_line message_count);'
  results <~ results;
  _print_semantic_results results;'
  _print_llm_single_results results;'
  _print_llm_pairwise_results results.

(** What [_print_semantic_results], [_print_llm_single_results] and
    [_print_llm_pairwise_results] print for a report, line by line; a
    count that is missing from the tally is written as 0. *)
Definition semantic_lines (results : MCPResults.t) : list string :=
  let row (label : string) (s : SystemResults.t) :=
    label +:+ " - Precision: " +:+ mean_std 4 (SystemResults.semantic_precision s)
    +:+ ", Recall: " +:+ mean_std 4 (SystemResults.semantic_recall s)
    +:+ ", F1: " +:+ mean_std 4 (SystemResults.semantic_f1 s) in
  [ str_mul "=" 50; "SEMANTIC EVALUATION RESULTS"; str_mul "=" 50;
    row "RecSum   " (MCPResults.recsum_results results);
    row "Baseline " (MCPResults.baseline_results results);
    "" ].

Definition llm_single_lines (results : MCPResults.t) : list string :=
  let row (label : string) (s : SystemResults.t) :=
    label +:+ " - Faithfulness: " +:+ mean_std 2 (SystemResults.llm_faithfulness s)
    +:+ ", Informativeness: " +:+ mean_std 2 (SystemResults.llm_informativeness s)
    +:+ ", Coherency: " +:+ mean_std 2 (SystemResults.llm_coherency s) in
  [ str_mul "=" 50; "LLM SINGLE EVALUATION RESULTS"; str_mul "=" 50;
    row "RecSum   " (MCPResults.recsum_results results);
    row "Baseline " (MCPResults.baseline_results results);
    "" ].

Definition llm_pairwise_lines (results : MCPResults.t) : list string :=
  let p := MCPResults.pairwise_results results in
  let total_count := PairwiseResults.get_total_count p in
  let row (metric : Metric) :=
    ljust 15 (capitalize (metric_name metric))
    +:+ ": RecSum " +:+ share (default 0 (tally_attr p metric !! "recsum")) total_count
    +:+ ", Baseline " +:+ share (default 0 (tally_attr p metric !! "baseline")) total_count
    +:+ ", Draws " +:+ share (default 0 (tally_attr p metric !! "draw")) total_count in
  if decide (total_count = 0) then ["No pairwise evaluations completed."]
  else
    [ str_mul "=" 50; "LLM PAIRWISE EVALUATION RESULTS"; str_mul "=" 50;
      row Faithfulness; row Informativeness; row Coherency ].

Definition report_lines (results : MCPResults.t) : list string :=
  semantic_lines results ++ llm_single_lines results ++ llm_pairwise_lines results.

End Printing.

(** ** Saving the report *)

Section Saving.

Context {W : Type} {H : Collaborators W}.

(** [filepath] is [None] for the default. *)
Definition save_results_to_json (filepath : option string) : M W string :=
  filepath <~
    match filepath with
    | None =>
        timestamp <~ ask now_strftime;
        ret ("mcp_results_" +:+ timestamp +:+ ".json")
    | Some filepath => ret filepath
    end;
  call (mkdir_parent filepath);'
  results <~ results;
  call (json_dump filepath results);'
  ret filepath.

(** The body of [main], run on the object [CalculateMCPMetrics()] has
    built. *)
Definition main : M W unit :=
  print_line "Starting MCP metrics calculation...";'
  calculate;'
  print_line "Calculation completed. Results:";'
  print_results;'
  saved_path <~ save_results_to_json None;
  print_line (newline +:+ "Results have been saved to: " +:+ saved_path).

End Saving.

(** [st'] is [st] after the lines [lines] were printed, and nothing
    else. *)
Definition printed {W} (lines : list string) (st st' : St (W * list Call)) : Prop :=
  self st' = self st /\
  log_of st' = log_of st ++ (CallPrint <$> lines).

(** The six samples one turn records for a system, in the order of
    [buffers]: the semantic score [s] and the judge's score [l] of its
    response. *)
Definition score_row (s : SemanticScore.t) (l : SingleScore.t) : list float :=
  [ SemanticScore.precision s; SemanticScore.recall s; SemanticScore.f1 s;
    SingleScore.faithfulness_score l; SingleScore.informativeness_score l;
    SingleScore.coherency_score l ].

(** The call [f] has returned [a], in some state of the world. *)
Definition answered {W A} (f : W -> option A * W) (a : A) : Prop :=
  exists w, (f w).1 = Some a.

(** Stubs for the run with a log. *)
Module StubLog.

(** The calculator of [Stub.start] in a world with an empty log. *)
Definition logged_start (dataset : list (list Session)) : St (nat * list Call) :=
  mkSt (self (Stub.start dataset)) (0, []).

(** A dialogue with one query left whose replay makes the candidate
    raise. *)
Definition boom_last : list Session :=
  [mkSession [Stub.user "q1"; Stub.user "boom"]].

End StubLog.


(** ** Reasoning about computations *)

Section Logic.

Context {W : Type}.

Implicit Types st : St W.

Lemma post_returns {A} (m : M W A) st Q E a st' :
  post m st Q E -> m st = (Returns a, st') -> Q a st'.
Proof. unfold post. intros Hp Hm. by rewrite Hm in Hp. Qed.

Lemma post_raises {A} (m : M W A) st Q E e st' :
  post m st Q E -> m st = (Raises e, st') -> E e st'.
Proof. unfold post. intros Hp Hm. by rewrite Hm in Hp. Qed.

Lemma post_mono {A} (m : M W A) st (Q Q' : A -> St W -> Prop)
    (E E' : Exception -> St W -> Prop) :
  post m st Q E ->
  (forall a st', Q a st' -> Q' a st') ->
  (forall e st', E e st' -> E' e st') ->
  post m st Q' E'.
Proof. unfold post. destruct (m st) as [[a|e] st']; auto. Qed.

Lemma post_and {A} (m : M W A) st (Q Q' : A -> St W -> Prop)
    (E E' : Exception -> St W -> Prop) :
  post m st Q E -> post m st Q' E' ->
  post m st (fun a s => Q a s /\ Q' a s) (fun e s => E e s /\ E' e s).
Proof. unfold post. destruct (m st) as [[a|e] st']; auto. Qed.

Lemma post_ret {A} (a : A) st Q E : Q a st -> post (ret a) st Q E.
Proof. done. Qed.

Lemma post_raise {A} e st (Q : A -> St W -> Prop) E :
  E e st -> post (raise e) st Q E.
Proof. done. Qed.

Lemma post_bind {A B} (m : M W A) (k : A -> M W B) st Q E :
  post m st (fun a st' => post (k a) st' Q E) E -> post (bind m k) st Q E.
Proof. unfold post, bind. by destruct (m st) as [[a|e] st']. Qed.

Lemma post_get {A} (f : CalculateMCPMetrics.t -> A) st Q E :
  Q (f (self st)) st -> post (get f) st Q E.
Proof. done. Qed.

Lemma post_modify f st Q E :
  Q tt (mkSt (f (self st)) (world st)) -> post (modify f) st Q E.
Proof. done. Qed.

Lemma post_call {A} (f : W -> option A * W) st Q E :
  (forall a w, f (world st) = (Some a, w) -> Q a (mkSt (self st) w)) ->
  (forall w, f (world st) = (None, w) -> E ExternalError (mkSt (self st) w)) ->
  post (call f) st Q E.
Proof.
  unfold post, call. intros HQ HE.
  destruct (f (world st)) as [[a|] w]; auto.
Qed.

Lemma post_ask {A} (f : W -> A * W) st Q E :
  (forall a w, f (world st) = (a, w) -> Q a (mkSt (self st) w)) ->
  post (ask f) st Q E.
Proof. unfold post, ask. intros HQ. destruct (f (world st)) as [a w]; auto. Qed.

Lemma post_lookup_or {A} e (o : option A) st Q E :
  (forall a, o = Some a -> Q a st) ->
  (o = None -> E e st) ->
  post (lookup_or e o) st Q E.
Proof. destruct o as [a|]; cbn; auto. Qed.

Lemma respects_run {A} R (m : M W A) st :
  respects R m -> R (self st) (self (m st).2).
Proof. intros Hm. specialize (Hm st). unfold post in Hm. by destruct (m st) as [[?|?] ?]. Qed.

Section Respects.

Context (R : relation CalculateMCPMetrics.t) `{!PreOrder R}.

Lemma respects_ret {A} (a : A) : respects (W := W) R (ret a).
Proof. intros st. apply post_ret. reflexivity. Qed.

Lemma respects_raise {A} e : respects (W := W) R (raise (A := A) e).
Proof. intros st. apply post_raise. reflexivity. Qed.

Lemma respects_get {A} (f : CalculateMCPMetrics.t -> A) : respects (W := W) R (get f).
Proof. intros st. apply post_get. reflexivity. Qed.

Lemma respects_call {A} (f : W -> option A * W) : respects (W := W) R (call f).
Proof. intros st. apply post_call; intros; reflexivity. Qed.

Lemma respects_ask {A} (f : W -> A * W) : respects (W := W) R (ask f).
Proof. intros st. apply post_ask; intros; reflexivity. Qed.

Lemma respects_lookup_or {A} e (o : option A) : respects (W := W) R (lookup_or e o).
Proof. intros st. apply post_lookup_or; intros; reflexivity. Qed.

Lemma respects_modify f : (forall c, R c (f c)) -> respects (W := W) R (modify f).
Proof. intros Hf st. apply post_modify. apply Hf. Qed.

Lemma respects_bind {A B} (m : M W A) (k : A -> M W B) :
  respects R m -> (forall a, respects (W := W) R (k a)) -> respects (W := W) R (bind m k).
Proof.
  intros Hm Hk st. apply post_bind.
  eapply post_mono; [apply Hm | |]; cbn; [|done].
  intros a st1 H1.
  eapply post_mono; [apply Hk | |]; cbn; intros; by etrans.
Qed.

Lemma respects_for_each {A} (l : list A) (body : A -> M W unit) :
  (forall x, x ∈ l -> respects (W := W) R (body x)) -> respects (W := W) R (for_each l body).
Proof.
  induction l as [|x l IH]; intros Hb; cbn.
  - apply respects_ret.
  - apply respects_bind; [apply Hb; left|].
    intros _. apply IH. intros y Hy. apply Hb. by right.
Qed.

End Respects.

End Logic.

(** ** Python list helpers: facts *)

Lemma list_pop_snoc {A} (l : list A) x : list_pop (l ++ [x]) = Some (x, l).
Proof. unfold list_pop. by rewrite last_snoc, removelast_last. Qed.

Lemma list_pop_Some {A} (l : list A) x r : list_pop l = Some (x, r) -> l = r ++ [x].
Proof.
  unfold list_pop. destruct (last l) as [y|] eqn:Hl; [|done].
  apply last_Some in Hl as [l' ->]. rewrite removelast_last. congruence.
Qed.

Lemma list_pop_None {A} (l : list A) : list_pop l = None <-> l = [].
Proof. unfold list_pop. rewrite <- last_None. by destruct (last l). Qed.

Lemma set_last_snoc {A} (l : list A) x y : set_last y (l ++ [x]) = l ++ [y].
Proof.
  unfold set_last. rewrite length_app. cbn.
  replace (pred (length l + 1)) with (length l + 0) by lia.
  by rewrite insert_app_r.
Qed.

(** ** Step relations on the calculator *)

#[global] Instance retained_preorder : PreOrder retained.
Proof.
  split.
  - intros c. unfold retained. reflexivity.
  - intros a b c Hab Hbc. unfold retained in *. by etrans.
Qed.

#[global] Instance frame_preorder touched : PreOrder (frame touched).
Proof.
  split.
  - intros c. unfold frame. split_and!; try done.
  - intros a b c (?&Hab&?&?&?&?&?) (?&Hbc&?&?&?&?&?). unfold frame.
    split_and!; try congruence; try lia.
    + intros j Hj. rewrite Hbc, Hab; done.
    + by etrans.
Qed.


(** ** What the methods leave alone *)

Ltac respects_step :=
  lazymatch goal with
  | |- respects _ (bind _ _) => apply respects_bind; [apply _ | | intros ?]
  | |- respects _ (ret _) => apply respects_ret; apply _
  | |- respects _ (raise _) => apply respects_raise; apply _
  | |- respects _ (get _) => apply respects_get; apply _
  | |- respects _ (call _) => apply respects_call; apply _
  | |- respects _ (ask _) => apply respects_ask; apply _
  | |- respects _ (lookup_or _ _) => apply respects_lookup_or; apply _
  | |- respects _ (modify _) => apply respects_modify; intros ?
  | |- respects _ (for_each _ _) => apply respects_for_each; [apply _ | intros ? ?]
  | |- respects _ (if ?b then _ else _) => destruct b
  | |- respects _ (let '(_, _) := ?p in _) => destruct p
  | |- respects _ (match ?x with _ => _ end) => destruct x
  end.

Ltac respects_auto := repeat (first [ assumption | solve [auto 2] | respects_step ]).

Lemma retained_snoc_cases (c c' : CalculateMCPMetrics.t) :
  Forall2 (fun b b' => b' = b \/ exists x, b' = b ++ [x]) (buffers c) (buffers c') ->
  retained c c'.
Proof.
  unfold retained. intros HF. eapply Forall2_impl; [exact HF|].
  intros b b' [->|[x ->]]; [done|]. by apply prefix_app_r.
Qed.

Ltac unfold_appends :=
  unfold recall_append, precision_append, f1_append,
    faithfulness_append, informativeness_append, coherency_append in *.

Ltac frame_modify :=
  unfold frame; unfold_appends; cbn; split_and!; try done; try lia;
  try (apply retained_snoc_cases; unfold buffers; cbn;
       repeat (lazymatch goal with
               | |- Forall2 _ (_ :: _) (_ :: _) =>
                   constructor; [first [by left | right; by eexists] |]
               end);
       constructor).

Section Frames.

Context {W : Type} `{Collaborators W}.

Implicit Types P : nat -> Prop.

Lemma frame_messages_pop P i : P i -> respects (W := W) (frame P) (messages_pop i).
Proof.
  intros HP. unfold messages_pop, the_dialogue. respects_auto. frame_modify.
  - by rewrite length_insert.
  - intros j Hj. rewrite list_lookup_insert_ne; [done|]. by intros ->.
Qed.

Lemma frame_dialogue_last P j : respects (W := W) (frame P) (dialogue_last j).
Proof. unfold dialogue_last, the_dialogue. respects_auto. Qed.

Lemma frame_memory_last P j : respects (W := W) (frame P) (memory_last j).
Proof. unfold memory_last. respects_auto. Qed.

Lemma frame_update_semantic P r b ideal :
  respects (frame P) (_update_semantic_scores r b ideal).
Proof.
  unfold _update_semantic_scores, append_recsum_semantic, append_baseline_semantic.
  respects_auto; frame_modify.
Qed.

Lemma frame_update_llm_single P r b ctx mem :
  respects (frame P) (_update_llm_single_scores r b ctx mem).
Proof.
  unfold _update_llm_single_scores, append_recsum_llm, append_baseline_llm.
  respects_auto; frame_modify.
Qed.

Lemma frame_update_pairwise_counts P score first :
  respects (W := W) (frame P) (_update_pairwise_counts score first).
Proof.
  unfold _update_pairwise_counts, count_metric, result_dict_incr.
  respects_auto; frame_modify.
Qed.

Lemma frame_update_llm_pairwise P ctx mem r b :
  respects (frame P) (_update_llm_pairwise_scores ctx mem r b).
Proof.
  pose proof (frame_update_pairwise_counts P) as Hc.
  unfold _update_llm_pairwise_scores. respects_auto.
Qed.

Lemma frame_process_turn P i idx ideal :
  P i -> respects (frame P) (process_turn i idx ideal).
Proof.
  intros HP.
  pose proof (frame_messages_pop P i HP). pose proof (frame_dialogue_last P i).
  pose proof (frame_memory_last P idx).
  pose proof (frame_update_semantic P). pose proof (frame_update_llm_single P).
  pose proof (frame_update_llm_pairwise P).
  unfold process_turn, the_dialogue. respects_auto. frame_modify.
Qed.

Lemma frame_while_messages P bound i idx ideal :
  P i -> respects (frame P) (while_messages bound i idx ideal).
Proof.
  intros HP.
  pose proof (frame_dialogue_last P i). pose proof (frame_process_turn P i idx ideal HP).
  induction bound as [|bound IH]; cbn; respects_auto.
Qed.

Lemma frame_process_dialogue P i idx :
  P i -> respects (frame P) (_process_dialogue i idx).
Proof.
  intros HP.
  pose proof (frame_messages_pop P i HP). pose proof (frame_dialogue_last P i).
  pose proof (fun b => frame_while_messages P b i idx).
  unfold _process_dialogue. respects_auto.
Qed.

Lemma frame_calculate_step P total i :
  P i -> respects (frame P) (calculate_step total i).
Proof.
  intros HP. pose proof (frame_process_dialogue P i i HP).
  unfold calculate_step, print_line. respects_auto.
Qed.

(** The sessions before position [i], replayed in order. *)
Lemma frame_sessions_below total a n :
  respects (frame (fun j => a <= j < a + n))
    (for_each (seq a n) (calculate_step total)).
Proof.
  apply respects_for_each; [apply _|]. intros i Hi.
  apply frame_calculate_step. apply elem_of_seq in Hi. lia.
Qed.

End Frames.

(** ** The pairwise tally *)

Lemma sum_values_incr (d : gmap string nat) key n :
  d !! key = Some n ->
  PairwiseResults.sum_values (<[key := n + 1]> d) = PairwiseResults.sum_values d + 1.
Proof.
  intros Hk. unfold PairwiseResults.sum_values.
  rewrite (map_fold_delete_L _ _ key n d); [|intros; lia|done].
  rewrite <- (insert_delete_eq d key (n + 1)).
  rewrite map_fold_insert_L; [lia|intros; lia|apply lookup_delete_eq].
Qed.

Lemma counts_wf_winner d v first : counts_wf d -> is_Some (d !! winner v first).
Proof. intros (?&?&?). by destruct v, first. Qed.

Lemma counts_wf_insert d key n : counts_wf d -> counts_wf (<[key := n]> d).
Proof.
  intros (?&?&?). unfold counts_wf. rewrite !lookup_insert_is_Some. 
  split_and!; destruct (decide (key = "recsum")), (decide (key = "baseline")),
    (decide (key = "draw")); auto.
Qed.

Lemma tally_attr_set metric metric' d p :
  tally_attr (set_tally_attr metric d p) metric'
  = if decide (metric = metric') then d else tally_attr p metric'.
Proof. by destruct metric, metric'. Qed.


#[local] Arguments count_in : simpl never.

Lemma tally_wf_count_in score first metric p :
  tally_wf p -> tally_wf (count_in score first metric p).
Proof.
  intros Hwf metric'. unfold count_in. rewrite tally_attr_set.
  case_decide; [|apply Hwf]. apply counts_wf_insert, Hwf.
Qed.

Lemma sum_count_in score first metric p metric' :
  tally_wf p ->
  PairwiseResults.sum_values (tally_attr (count_in score first metric p) metric')
  = PairwiseResults.sum_values (tally_attr p metric')
    + (if decide (metric = metric') then 1 else 0).
Proof.
  intros Hwf. unfold count_in. rewrite tally_attr_set.
  case_decide as Hm; [|lia]. subst metric'.
  apply sum_values_incr. unfold counter.
  destruct (counts_wf_winner _ (score_attr score metric) first (Hwf metric)) as [n ->].
  done.
Qed.

Lemma counted_judged score first p : tally_wf p -> judged 1 p (counted score first p).
Proof.
  intros Hwf. unfold counted. split.
  - by do 3 apply tally_wf_count_in.
  - intros metric.
    rewrite !sum_count_in by (by repeat apply tally_wf_count_in).
    destruct metric; repeat case_decide; first [congruence | lia].
Qed.

Lemma counter_count_in score first metric p metric' key :
  tally_wf p ->
  counter (count_in score first metric p) metric' key
  = counter p metric' key
    + (if decide (metric = metric' /\ winner (score_attr score metric) first = key)
       then 1 else 0).
Proof.
  intros Hwf. unfold counter at 1, count_in. rewrite tally_attr_set.
  destruct (decide (metric = metric')) as [<-|Hm].
  - rewrite lookup_insert.
    destruct (decide (winner (score_attr score metric) first = key)) as [<-|Hk].
    + destruct (decide (_ /\ _)) as [_|Hn]; [done|]. by destruct Hn.
    + destruct (decide (_ /\ _)) as [[_ Hn]|_]; [done|]. unfold counter. lia.
  - destruct (decide (_ /\ _)) as [[Hn _]|_]; [done|]. unfold counter. lia.
Qed.

Lemma counter_counted score first p metric key :
  tally_wf p ->
  counter (counted score first p) metric key
  = counter p metric key
    + (if decide (winner (score_attr score metric) first = key) then 1 else 0).
Proof.
  intros Hwf. unfold counted.
  rewrite !counter_count_in by (by repeat apply tally_wf_count_in).
  destruct metric; repeat case_decide; intuition (first [congruence | lia]).
Qed.

Section Tally.

Context {W : Type}.

Implicit Types st : St W.

Lemma result_dict_incr_run metric key st n :
  tally_attr (_pairwise_data (self st)) metric !! key = Some n ->
  result_dict_incr metric key st
  = (Returns tt,
     mkSt (set_pairwise
             (set_tally_attr metric
                (<[key := n + 1]> (tally_attr (_pairwise_data (self st)) metric))
                (_pairwise_data (self st)))
             (self st))
          (world st)).
Proof. intros Hk. unfold result_dict_incr, bind, get. cbn. by rewrite Hk. Qed.

Lemma count_metric_run score first metric st :
  tally_wf (_pairwise_data (self st)) ->
  count_metric score first metric st
  = (Returns tt,
     mkSt (set_pairwise (count_in score first metric (_pairwise_data (self st))) (self st))
          (world st)).
Proof.
  intros Hwf. unfold count_in, counter.
  destruct (counts_wf_winner _ (score_attr score metric) first (Hwf metric)) as [n Hn].
  rewrite Hn. cbn. rewrite <- (result_dict_incr_run _ _ _ _ Hn).
  unfold count_metric, winner. by destruct (score_attr score metric).
Qed.

Lemma update_pairwise_counts_run score first st :
  tally_wf (_pairwise_data (self st)) ->
  _update_pairwise_counts score first st
  = (Returns tt,
     mkSt (set_pairwise (counted score first (_pairwise_data (self st))) (self st))
          (world st)).
Proof.
  intros Hwf. unfold _update_pairwise_counts, metrics, counted. cbn.
  unfold bind. rewrite count_metric_run by done. cbn.
  rewrite count_metric_run by (cbn; by apply tally_wf_count_in). cbn.
  rewrite count_metric_run by (cbn; by do 2 apply tally_wf_count_in). cbn.
  reflexivity.
Qed.

End Tally.

(** ** Running the methods *)

Ltac simpl_state :=
  cbn [self world
       sessions memory _recsum_semantic_data _baseline_semantic_data
       _recsum_llm_data _baseline_llm_data _pairwise_data message_count
       n_samples _is_calculated
       set_sessions set_recsum_semantic set_baseline_semantic set_recsum_llm
       set_baseline_llm set_pairwise set_message_count set_is_calculated] in *.

Ltac wp_step :=
  lazymatch goal with
  | |- post (bind _ _) _ _ _ => apply post_bind
  | |- post (ret _) _ _ _ => apply post_ret
  | |- post (raise _) _ _ _ => apply post_raise
  | |- post (get _) _ _ _ => apply post_get
  | |- post (modify _) _ _ _ => apply post_modify
  | |- post (call _) _ _ _ => apply post_call; [intros ? ? ? | intros ? ?]
  | |- post (ask _) _ _ _ => apply post_ask; intros ? ? ?
  | |- post (lookup_or _ _) _ _ _ => apply post_lookup_or; [intros ? ? | intros ?]
  end; cbn beta; simpl_state.

Ltac wp := repeat wp_step.

#[global] Instance tally_only_preorder : PreOrder tally_only.
Proof.
  split.
  - intros []. reflexivity.
  - intros a b c Hab Hbc. unfold tally_only in *. rewrite Hbc, Hab. reflexivity.
Qed.

Lemma grown_refl c : grown 0 c c.
Proof.
  unfold grown. apply Forall_Forall2_diag, Forall_true. intros b.
  exists []. by rewrite app_nil_r.
Qed.

Lemma grown_trans a b c c1 c2 : grown a c c1 -> grown b c1 c2 -> grown (a + b) c c2.
Proof.
  unfold grown. generalize (buffers c) (buffers c1) (buffers c2).
  intros l l1 l2 H1. revert l2.
  induction H1 as [|x y l l1 (m1 & -> & Hm1) _ IH]; intros l2 H2.
  - apply Forall2_nil_inv_l in H2 as ->. constructor.
  - apply Forall2_cons_inv_l in H2 as (z & l2' & (m2 & -> & Hm2) & H2 & ->).
    constructor; [|by apply IH].
    exists (m1 ++ m2). rewrite <- app_assoc, length_app. split; [done|lia].
Qed.

Lemma aligned_grown n k c c' : aligned n c -> grown k c c' -> aligned (n + k) c'.
Proof.
  unfold aligned, grown. generalize (buffers c) (buffers c').
  intros l l' Hl Hg. induction Hg as [|x y l l' (m & -> & Hm) _ IH].
  - constructor.
  - apply Forall_cons in Hl as [Hx Hl]. constructor; [|by apply IH].
    rewrite length_app. lia.
Qed.

Lemma judged_refl p : tally_wf p -> judged 0 p p.
Proof. intros Hwf. split; [done|]. intros. lia. Qed.

Lemma judged_trans a b p p1 p2 : judged a p p1 -> judged b p1 p2 -> judged (a + b) p p2.
Proof.
  intros [_ H1] [Hwf H2]. split; [done|]. intros metric. rewrite H2, H1. lia.
Qed.

Section Runs.

Context {W : Type} `{Collaborators W}.

Implicit Types st : St W.

Lemma post_eq {A} (m : M W A) st a st' (Q : A -> St W -> Prop) E :
  m st = (Returns a, st') -> Q a st' -> post m st Q E.
Proof. unfold post. by intros ->. Qed.

Lemma bind_returns {A B} (m : M W A) (k : A -> M W B) st a st' :
  m st = (Returns a, st') -> bind m k st = k a st'.
Proof. unfold bind. by intros ->. Qed.

Lemma bind_raises {A B} (m : M W A) (k : A -> M W B) st e st' :
  m st = (Raises e, st') -> bind m k st = (Raises e, st').
Proof. unfold bind. by intros ->. Qed.

Lemma the_dialogue_run i st d :
  sessions (self st) !! i = Some d -> the_dialogue i st = (Returns d, st).
Proof. intros Hd. unfold the_dialogue, bind, get. cbn. by rewrite Hd. Qed.

Lemma dialogue_last_run i st pre s :
  sessions (self st) !! i = Some (pre ++ [s]) -> dialogue_last i st = (Returns s, st).
Proof.
  intros Hd. unfold dialogue_last. rewrite (bind_returns _ _ _ _ _ (the_dialogue_run _ _ _ Hd)).
  by rewrite last_snoc.
Qed.

Lemma messages_pop_run i st pre rest m :
  sessions (self st) !! i = Some (pre ++ [mkSession (rest ++ [m])]) ->
  messages_pop i st
  = (Returns m,
     mkSt (set_sessions (<[i := pre ++ [mkSession rest]]> (sessions (self st))) (self st))
          (world st)).
Proof.
  intros Hd. unfold messages_pop.
  rewrite (bind_returns _ _ _ _ _ (the_dialogue_run _ _ _ Hd)).
  rewrite last_snoc. cbn [lookup_or]. unfold bind at 1. cbn [ret messages].
  rewrite list_pop_snoc. cbn [lookup_or]. unfold bind at 1. cbn [ret].
  by rewrite set_last_snoc.
Qed.

(** Popping from a dialogue whose final message list is empty raises
    IndexError and changes nothing. *)
Lemma messages_pop_empty i st pre :
  sessions (self st) !! i = Some (pre ++ [mkSession []]) ->
  messages_pop i st = (Raises IndexError, st).
Proof.
  intros Hd. unfold messages_pop.
  rewrite (bind_returns _ _ _ _ _ (the_dialogue_run _ _ _ Hd)).
  by rewrite last_snoc.
Qed.

(** [messages_pop] returns only on a dialogue with a final session that
    has a message, and raises nothing but IndexError. *)
Lemma messages_pop_post i st :
  post (messages_pop i) st
    (fun m st' => exists pre rest,
       sessions (self st) !! i = Some (pre ++ [mkSession (rest ++ [m])]) /\
       st' = mkSt (set_sessions (<[i := pre ++ [mkSession rest]]> (sessions (self st)))
                     (self st)) (world st))
    (fun e st' => e = IndexError /\ st' = st).
Proof.
  unfold post. destruct (sessions (self st) !! i) as [d|] eqn:Hd.
  - destruct (last d) as [[ms]|] eqn:Hs.
    + apply last_Some in Hs as [pre ->].
      destruct (list_pop ms) as [[m rest]|] eqn:Hm.
      * apply list_pop_Some in Hm as ->. rewrite (messages_pop_run _ _ _ _ _ Hd). eauto.
      * apply list_pop_None in Hm as ->. by rewrite (messages_pop_empty _ _ _ Hd).
    + unfold messages_pop. rewrite (bind_returns _ _ _ _ _ (the_dialogue_run _ _ _ Hd)).
      by rewrite Hs.
  - unfold messages_pop, the_dialogue, bind, get. cbn. by rewrite Hd.
Qed.

End Runs.

Ltac grown_one :=
  unfold grown, buffers; unfold_appends; cbn;
  repeat (lazymatch goal with
          | |- Forall2 _ (_ :: _) (_ :: _) =>
              constructor; [eexists [_]; split; [reflexivity|done] |]
          end);
  constructor.

Section Turn.

Context {W : Type} `{Collaborators W}.

Implicit Types st : St W.

Lemma unreliable_recsum d q w w' :
  recsum_process_dialogue d q w = (None, w') -> ~ reliable.
Proof. intros Hc (Hr&_). by apply (Hr d q w); rewrite Hc. Qed.

Lemma unreliable_baseline d q w w' :
  baseline_process_dialogue d q w = (None, w') -> ~ reliable.
Proof. intros Hc (_&Hr&_). by apply (Hr d q w); rewrite Hc. Qed.

Lemma unreliable_similarity r ideal w w' :
  compute_similarity r ideal w = (None, w') -> ~ reliable.
Proof. intros Hc (_&_&Hr&_). by apply (Hr r ideal w); rewrite Hc. Qed.

Lemma unreliable_single ctx mem r w w' :
  evaluate_single ctx mem r w = (None, w') -> ~ reliable.
Proof. intros Hc (_&_&_&Hr&_). by apply (Hr ctx mem r w); rewrite Hc. Qed.

Lemma unreliable_pairwise ctx mem a b w w' :
  evaluate_pairwise ctx mem a b w = (None, w') -> ~ reliable.
Proof. intros Hc (_&_&_&_&Hr). by apply (Hr ctx mem a b w); rewrite Hc. Qed.

Lemma tally_only_update_pairwise_counts score first :
  respects (W := W) tally_only (_update_pairwise_counts score first).
Proof.
  unfold _update_pairwise_counts, count_metric, result_dict_incr.
  respects_auto; reflexivity.
Qed.

Lemma update_pairwise_counts_raises score first st :
  post (_update_pairwise_counts score first) st
    (fun _ _ => True) (fun e _ => e = KeyError).
Proof.
  unfold _update_pairwise_counts, metrics, for_each, count_metric, result_dict_incr.
  repeat (first [ wp_step | case_decide ]); done.
Qed.

Lemma update_pairwise_counts_post score first st :
  post (_update_pairwise_counts score first) st
    (fun _ st' =>
       tally_only (self st) (self st') /\
       (tally_wf (_pairwise_data (self st)) ->
        _pairwise_data (self st') = counted score first (_pairwise_data (self st))))
    (fun e _ => e = KeyError /\ ~ tally_wf (_pairwise_data (self st))).
Proof.
  pose proof (respects_run _ _ st (tally_only_update_pairwise_counts score first)) as Ht.
  pose proof (update_pairwise_counts_raises score first st) as He.
  unfold post in *.
  destruct (_update_pairwise_counts score first st) as [[[]|e] st'] eqn:Hrun; cbn in Ht.
  - split; [done|]. intros Hwf.
    rewrite (update_pairwise_counts_run _ _ _ Hwf) in Hrun. by simplify_eq.
  - split; [done|]. intros Hwf.
    by rewrite (update_pairwise_counts_run _ _ _ Hwf) in Hrun.
Qed.

Lemma memory_last_fault idx st :
  post (memory_last idx) st (fun _ st' => st' = st)
    (fun e st' => e = IndexError /\ ~ memory_ok idx (self st)).
Proof.
  unfold memory_last. apply post_bind, post_get. cbn beta.
  apply post_bind, post_lookup_or; [intros row Hrow | intros Hn]; cbn beta.
  - apply post_lookup_or; [done | intros Hn].
    split; [done|]. intros (row' & m & Hm). rewrite Hrow in Hm.
    simplify_eq. by rewrite last_snoc in Hn.
  - split; [done|]. intros (row & m & Hm). by rewrite Hn in Hm.
Qed.

(** One turn of a dialogue that still has a query [q]. *)
Lemma process_turn_post i idx ideal st pre rest q :
  sessions (self st) !! i = Some (pre ++ [mkSession (rest ++ [q])]) ->
  post (process_turn i idx ideal) st
    (fun _ st' =>
       sessions (self st') = <[i := pre ++ [mkSession rest]]> (sessions (self st)) /\
       message_count (self st') = message_count (self st) + 1 /\
       memory (self st') = memory (self st) /\
       grown 1 (self st) (self st') /\
       (tally_wf (_pairwise_data (self st)) ->
        judged 1 (_pairwise_data (self st)) (_pairwise_data (self st'))))
    (fun e _ => fault idx (self st) e).
Proof.
  intros Hd. assert (i < length (sessions (self st))) as Hi by by eapply lookup_lt_Some.
  unfold process_turn. wp_step. wp_step.
  apply post_bind. eapply post_eq; [by apply messages_pop_run|]. simpl_state.
  apply post_bind. eapply post_eq.
  { apply the_dialogue_run. cbn. by apply list_lookup_insert_eq. }
  wp_step; wp_step; [|by eapply unreliable_recsum].
  wp_step; wp_step; [|by eapply unreliable_baseline].
  unfold _update_semantic_scores, append_recsum_semantic, append_baseline_semantic.
  wp; try (by eapply unreliable_similarity).
  eapply post_eq.
  { eapply dialogue_last_run. simpl_state. by apply list_lookup_insert_eq. }
  apply post_bind. eapply post_mono; [apply memory_last_fault| |]; cbn beta;
    [intros memory ? -> | by intros ? ? [-> ?]].
  unfold _update_llm_single_scores, append_recsum_llm, append_baseline_llm.
  wp; try (by eapply unreliable_single).
  unfold _update_llm_pairwise_scores. wp_step. wp_step.
  match goal with |- post (if ?b then _ else _) _ _ _ => destruct b end.
  all: wp_step; wp_step; [|by eapply unreliable_pairwise].
  all: eapply post_mono; [apply update_pairwise_counts_post| |]; cbn beta;
    [|by intros ? ? [-> ?]].
  all: intros [] st' [Ht Hp]; cbn in Ht, Hp; rewrite Ht; cbn.
  all: split_and!; [done | done | done | grown_one |].
  all: intros Hwf; rewrite (Hp Hwf); by apply counted_judged.
Qed.

End Turn.

Section Dialogue.

Context {W : Type} `{Collaborators W}.

Implicit Types st : St W.

Lemma fault_mono idx c c' e :
  memory c' = memory c ->
  (tally_wf (_pairwise_data c) -> tally_wf (_pairwise_data c')) ->
  fault idx c' e -> fault idx c e.
Proof.
  intros Hm Hwf. destruct e; cbn; [|tauto|done|done].
  unfold memory_ok. by rewrite Hm.
Qed.

(** The loop of [_process_dialogue] on a dialogue with [ms] still to
    replay: it never reaches its bound, and when it returns it has
    processed one turn per message. *)
Lemma while_messages_post bound i idx ideal st pre ms :
  sessions (self st) !! i = Some (pre ++ [mkSession ms]) ->
  length ms <= bound ->
  post (while_messages bound i idx ideal) st
    (fun _ st' =>
       sessions (self st') = <[i := pre ++ [mkSession []]]> (sessions (self st)) /\
       message_count (self st') = message_count (self st) + length ms /\
       memory (self st') = memory (self st) /\
       grown (length ms) (self st) (self st') /\
       (tally_wf (_pairwise_data (self st)) ->
        judged (length ms) (_pairwise_data (self st)) (_pairwise_data (self st'))))
    (fun e _ => fault idx (self st) e).
Proof.
  revert st ms. induction bound as [|bound IH]; intros st ms Hd Hlen.
  - destruct ms as [|m ms]; [|cbn in Hlen; lia].
    cbn [while_messages]. apply post_bind. eapply post_eq; [by eapply dialogue_last_run|].
    cbn. split_and!; [by rewrite list_insert_id | lia | done | apply grown_refl |].
    apply judged_refl.
  - cbn [while_messages]. apply post_bind.
    eapply post_eq; [by eapply dialogue_last_run|]. cbn [messages].
    destruct ms as [|q rest _] using rev_ind.
    { cbn. split_and!; [by rewrite list_insert_id | lia | done | apply grown_refl |].
      apply judged_refl. }
    assert (i < length (sessions (self st))) as Hi by by eapply lookup_lt_Some.
    rewrite length_app in *. cbn [length] in *.
    destruct (rest ++ [q]) as [|x l] eqn:Hms; [by destruct rest|]. rewrite <- Hms in Hd.
    apply post_bind.
    eapply post_mono; [apply (process_turn_post _ _ _ _ pre rest q Hd) | |];
      cbn beta; [|done].
    intros [] st1 (Hs1 & Hc1 & Hm1 & Hg1 & Hj1).
    assert (sessions (self st1) !! i = Some (pre ++ [mkSession rest])) as Hd1.
    { rewrite Hs1. by apply list_lookup_insert_eq. }
    eapply post_mono; [apply (IH st1 rest Hd1); lia | |]; cbn beta.
    + intros [] st2 (Hs2 & Hc2 & Hm2 & Hg2 & Hj2). split_and!.
      * by rewrite Hs2, Hs1, list_insert_insert_eq.
      * lia.
      * congruence.
      * replace (length rest + 1) with (1 + length rest) by lia. by eapply grown_trans.
      * intros Hwf. replace (length rest + 1) with (1 + length rest) by lia.
        eapply judged_trans; [by apply Hj1|]. apply Hj2. by apply Hj1.
    + intros e _. apply fault_mono; [done|]. intros Hwf. by apply Hj1.
Qed.

(** A dialogue whose final session holds [rest ++ [ideal]]: the ideal
    response is removed, then one turn is processed per message of
    [rest]. *)
Lemma process_dialogue_post i idx st pre rest ideal :
  sessions (self st) !! i = Some (pre ++ [mkSession (rest ++ [ideal])]) ->
  post (_process_dialogue i idx) st
    (fun _ st' =>
       sessions (self st') = <[i := pre ++ [mkSession []]]> (sessions (self st)) /\
       message_count (self st') = message_count (self st) + length rest /\
       memory (self st') = memory (self st) /\
       grown (length rest) (self st) (self st') /\
       (tally_wf (_pairwise_data (self st)) ->
        judged (length rest) (_pairwise_data (self st)) (_pairwise_data (self st'))))
    (fun e _ => fault idx (self st) e).
Proof.
  intros Hd. assert (i < length (sessions (self st))) as Hi by by eapply lookup_lt_Some.
  unfold _process_dialogue. apply post_bind.
  eapply post_eq; [by apply messages_pop_run|].
  set (st1 := mkSt _ _).
  assert (sessions (self st1) !! i = Some (pre ++ [mkSession rest])) as Hd1.
  { subst st1. cbn. by apply list_lookup_insert_eq. }
  apply post_bind. eapply post_eq; [by eapply dialogue_last_run|]. cbn [messages].
  eapply post_mono; [by apply (while_messages_post _ _ _ _ _ pre rest Hd1) | |]; cbn beta.
  - intros [] st2 (Hs2 & Hc2 & Hm2 & Hg2 & Hj2). subst st1. simpl_state. split_and!; try done.
    by rewrite Hs2, list_insert_insert_eq.
  - done.
Qed.

(** The ideal response cannot be taken from an empty message list. *)
Lemma process_dialogue_empty i idx st pre :
  sessions (self st) !! i = Some (pre ++ [mkSession []]) ->
  _process_dialogue i idx st = (Raises IndexError, st).
Proof.
  intros Hd. unfold _process_dialogue. apply bind_raises. by eapply messages_pop_empty.
Qed.

(** A dialogue is replayed without error only if its final session has a
    message. *)
Lemma process_dialogue_returns_inv i idx st st' :
  _process_dialogue i idx st = (Returns tt, st') ->
  exists pre rest ideal,
    sessions (self st) !! i = Some (pre ++ [mkSession (rest ++ [ideal])]).
Proof.
  unfold _process_dialogue, bind. intros Hrun.
  pose proof (messages_pop_post i st) as Hpop. unfold post in Hpop.
  destruct (messages_pop i st) as [[m|e] st1]; [|done].
  destruct Hpop as (pre & rest & Hd & _). eauto.
Qed.

End Dialogue.

(** ** The whole run *)

Section Run.

Context {W : Type} `{Collaborators W}.

Implicit Types st : St W.

Lemma for_each_app {A} (l1 l2 : list A) (body : A -> M W unit) st :
  for_each (l1 ++ l2) body st = bind (for_each l1 body) (fun _ => for_each l2 body) st.
Proof.
  revert st. induction l1 as [|x l1 IH]; intros st; [done|].
  cbn [for_each app]. unfold bind in *.
  destruct (body x st) as [[[]|e] st1]; [|done]. apply IH.
Qed.

(** Replaying the dialogues at positions [a], ..., [a + n - 1]: when it
    returns, each of them had a final session with a message and now has
    none, and some number [k] of turns was processed. *)
(** A step of the run is the replay of its dialogue, after the line
    that announces it. *)
Lemma calculate_step_run total i st :
  calculate_step total i st
  = _process_dialogue i i (mkSt (self st) (print (processing_line i total) (world st))).
Proof. done. Qed.

Lemma replay_post total a n st :
  post (for_each (seq a n) (calculate_step total)) st
    (fun _ st' =>
       (forall j, a <= j < a + n ->
          exists pre rest ideal,
            sessions (self st) !! j = Some (pre ++ [mkSession (rest ++ [ideal])]) /\
            sessions (self st') !! j = Some (pre ++ [mkSession []])) /\
       exists k,
         message_count (self st') = message_count (self st) + k /\
         grown k (self st) (self st') /\
         (tally_wf (_pairwise_data (self st)) ->
          judged k (_pairwise_data (self st)) (_pairwise_data (self st'))))
    (fun _ _ => True).
Proof.
  revert a st. induction n as [|n IH]; intros a st.
  - cbn. split; [intros; lia|]. exists 0. split_and!; [lia|apply grown_refl|apply judged_refl].
  - cbn [seq for_each]. apply post_bind. unfold post at 1.
    rewrite calculate_step_run. set (st0 := mkSt _ _).
    destruct (_process_dialogue a a st0) as [[[]|e] st1] eqn:Hrun; [|done].
    destruct (process_dialogue_returns_inv _ _ _ _ Hrun) as (pre & rest & ideal & Hd).
    pose proof (post_returns _ _ _ _ _ _ (process_dialogue_post _ a _ _ _ _ Hd) Hrun)
      as (Hs1 & Hc1 & Hm1 & Hg1 & Hj1).
    subst st0. cbn [self] in *.
    assert (a < length (sessions (self st))) as Ha by by eapply lookup_lt_Some.
    eapply post_mono;
      [apply (post_and _ _ _ _ _ _ (IH (S a) st1)
                (frame_sessions_below total (S a) n st1)) | |];
      cbn beta; [|done].
    intros [] st2 [(Hs2 & k & Hc2 & Hg2 & Hj2) (_ & Hfr & _)]. split.
    + intros j Hj. destruct (decide (j = a)) as [->|Hne].
      * exists pre, rest, ideal. split; [done|].
        rewrite Hfr by lia. rewrite Hs1. by apply list_lookup_insert_eq.
      * destruct (Hs2 j) as (pre' & rest' & ideal' & Hj1' & Hj2'); [lia|].
        exists pre', rest', ideal'. split; [|done].
        rewrite Hs1 in Hj1'. by rewrite list_lookup_insert_ne in Hj1'.
    + exists (length rest + k). split_and!; [lia | by eapply grown_trans |].
      intros Hwf. eapply judged_trans; [by apply Hj1|]. apply Hj2. by apply Hj1.
Qed.

(** What a run that returns has done. *)
Lemma calculate_returns st st' :
  calculate st = (Returns tt, st') ->
  _is_calculated (self st') = true /\
  length (sessions (self st')) = length (sessions (self st)) /\
  memory (self st') = memory (self st) /\
  n_samples (self st') = n_samples (self st) /\
  (forall j, j < length (sessions (self st)) ->
     exists pre rest ideal,
       sessions (self st) !! j = Some (pre ++ [mkSession (rest ++ [ideal])]) /\
       sessions (self st') !! j = Some (pre ++ [mkSession []])) /\
  exists k,
    message_count (self st') = message_count (self st) + k /\
    grown k (self st) (self st') /\
    (tally_wf (_pairwise_data (self st)) ->
     judged k (_pairwise_data (self st)) (_pairwise_data (self st'))).
Proof.
  unfold calculate. unfold bind at 1. cbn [get].
  pose proof (replay_post (length (seq 0 (length (sessions (self st)))))
                0 (length (sessions (self st))) st) as Hp.
  pose proof (respects_run _ _ st
                (frame_sessions_below (length (seq 0 (length (sessions (self st)))))
                   0 (length (sessions (self st)))))
    as (Hlen & _ & Hmem & Hn & _).
  unfold post in Hp. unfold bind.
  destruct (for_each _ _ st) as [[[]|e] st1]; [|done].
  cbn in Hlen, Hmem, Hn. cbn [modify]. intros [= <-].
  destruct Hp as (Hs & k & Hk). cbn. split_and!; try done.
  - intros j Hj. apply Hs. lia.
  - by exists k.
Qed.

(** A dialogue that raises ends the run there: the exception leaves
    [calculate] with the state as the dialogue left it. *)
Lemma calculate_raises_at st i st_i e st' :
  i < length (sessions (self st)) ->
  for_each (seq 0 i) (calculate_step (length (sessions (self st)))) st
  = (Returns tt, st_i) ->
  calculate_step (length (sessions (self st))) i st_i = (Raises e, st') ->
  calculate st = (Raises e, st').
Proof.
  intros Hi Hbefore Hfail. unfold calculate. unfold bind at 1. cbn [get].
  rewrite length_seq.
  replace (seq 0 (length (sessions (self st))))
    with (seq 0 (i + S (length (sessions (self st)) - S i)))
    by (f_equal; lia).
  rewrite seq_app. cbn [seq]. apply bind_raises.
  rewrite for_each_app. rewrite (bind_returns _ _ _ _ _ Hbefore).
  cbn [for_each]. by apply bind_raises.
Qed.

End Run.

(** ** Properties of the replay *)

Lemma tally_wf_new : tally_wf PairwiseResults.new.
Proof. intros []; repeat split; by eexists. Qed.

Lemma aligned_init ds mem n : aligned 0 (CalculateMCPMetrics.init ds mem n).
Proof. unfold aligned, buffers. cbn. repeat constructor. Qed.

Lemma reliable_steady : reliable (H := Stub.steady).
Proof. repeat split; intros; cbn; unfold Stub.single; try case_decide; done. Qed.

Section Replay.

Context {W : Type} `{Collaborators W}.

Implicit Types st : St W.

(** When [_process_dialogue] returns, it has processed one turn for each
    message but the last, whatever the collaborators did. *)
Lemma process_dialogue_returns_count st i idx pre s st' :
  sessions (self st) !! i = Some (pre ++ [s]) ->
  _process_dialogue i idx st = (Returns tt, st') ->
  message_count (self st') = message_count (self st) + (length (messages s) - 1) /\
  grown (length (messages s) - 1) (self st) (self st') /\
  sessions (self st') !! i = Some (pre ++ [mkSession []]).
Proof.
  intros Hd Hrun.
  destruct (process_dialogue_returns_inv _ _ _ _ Hrun) as (pre' & rest & ideal & Hd').
  rewrite Hd in Hd'. injection Hd' as Hd'. apply app_inj_tail in Hd' as [<- ->].
  pose proof (post_returns _ _ _ _ _ _ (process_dialogue_post _ idx _ _ _ _ Hd) Hrun)
    as (Hs1 & Hc1 & _ & Hg1 & _).
  cbn [messages]. rewrite length_app. cbn [length].
  replace (length rest + 1 - 1) with (length rest) by lia.
  split_and!; [done..|]. rewrite Hs1. apply list_lookup_insert_eq. by eapply lookup_lt_Some.
Qed.

(** A dialogue with the ideal response only: it is removed and no turn
    is processed; no collaborator is called. *)
Lemma process_dialogue_single i idx st pre ideal :
  sessions (self st) !! i = Some (pre ++ [mkSession [ideal]]) ->
  _process_dialogue i idx st
  = (Returns tt,
     mkSt (set_sessions (<[i := pre ++ [mkSession []]]> (sessions (self st))) (self st))
          (world st)).
Proof.
  intros Hd. assert (i < length (sessions (self st))) as Hi by by eapply lookup_lt_Some.
  unfold _process_dialogue.
  rewrite (bind_returns _ _ _ _ _ (messages_pop_run _ _ pre [] ideal Hd)).
  erewrite bind_returns;
    [|eapply (dialogue_last_run _ _ pre); cbn; by apply list_lookup_insert_eq].
  cbn [messages length while_messages].
  erewrite bind_returns;
    [|eapply (dialogue_last_run _ _ pre); cbn; by apply list_lookup_insert_eq].
  reflexivity.
Qed.

(** C6: the judge sees the candidate first exactly when the order flag
    is set, and its verdict on each metric (the field of that name of the
    score it returned) is mapped back through that flag into the
    dictionary of that metric: "first is better" counts for the candidate
    if the candidate was first and for the baseline otherwise, "second is
    better" the other way round, and anything else is a draw; exactly one
    counter of each metric moves, by one. *)
Theorem pairwise_order_debiasing ctx mem recsum_response baseline_response st
    flag w1 score w2 :
  tally_wf (_pairwise_data (self st)) ->
  random_below_half (world st) = (flag, w1) ->
  evaluate_pairwise ctx mem
    (if flag then recsum_response else baseline_response)
    (if flag then baseline_response else recsum_response) w1 = (Some score, w2) ->
  exists p',
    _update_llm_pairwise_scores ctx mem recsum_response baseline_response st
    = (Returns tt, mkSt (set_pairwise p' (self st)) w2) /\
    one_more (PairwiseScore.faithfulness score) flag
      (PairwiseResults.faithfulness (_pairwise_data (self st)))
      (PairwiseResults.faithfulness p') /\
    one_more (PairwiseScore.informativeness score) flag
      (PairwiseResults.informativeness (_pairwise_data (self st)))
      (PairwiseResults.informativeness p') /\
    one_more (PairwiseScore.coherency score) flag
      (PairwiseResults.coherency (_pairwise_data (self st)))
      (PairwiseResults.coherency p').
Proof.
  intros Hwf Hcoin Hjudge.
  exists (counted score flag (_pairwise_data (self st))). split.
  - unfold _update_llm_pairwise_scores, bind, ask, call. rewrite Hcoin.
    destruct flag; cbn [self world]; rewrite Hjudge;
      by rewrite update_pairwise_counts_run.
  - assert (forall metric,
              one_more (score_attr score metric) flag
                (tally_attr (_pairwise_data (self st)) metric)
                (tally_attr (counted score flag (_pairwise_data (self st))) metric))
      as Hall.
    { intros metric. unfold one_more. cbn zeta.
      pose proof (counter_counted score flag _ metric "recsum" Hwf) as Hr.
      pose proof (counter_counted score flag _ metric "baseline" Hwf) as Hb.
      pose proof (counter_counted score flag _ metric "draw" Hwf) as Hd.
      unfold counter in Hr, Hb, Hd. rewrite Hr, Hb, Hd.
      destruct (score_attr score metric), flag; cbn [winner];
        repeat case_decide; try done; lia. }
    split_and!; [apply (Hall Faithfulness) | apply (Hall Informativeness)
                | apply (Hall Coherency)].
Qed.


End Replay.

Section Buffers.

Context {W : Type} `{Collaborators W}.

Implicit Types st : St W.

(** A turn that returns has added one sample to each of the twelve
    buffers. *)
Lemma process_turn_grown i idx ideal st st' :
  process_turn i idx ideal st = (Returns tt, st') -> grown 1 (self st) (self st').
Proof.
  intros Hrun.
  assert (exists pre rest q,
    sessions (self st) !! i = Some (pre ++ [mkSession (rest ++ [q])]))
    as (pre & rest & q & Hd).
  { unfold process_turn in Hrun. unfold bind at 1 in Hrun. cbn [modify] in Hrun.
    unfold bind at 1 in Hrun.
    pose proof (messages_pop_post i
      (mkSt (set_message_count (message_count (self st) + 1) (self st)) (world st)))
      as Hpop.
    unfold post in Hpop. destruct (messages_pop i _) as [[m|e] st1]; [|done].
    destruct Hpop as (pre & rest & Hd & _). by exists pre, rest, m. }
  by pose proof (post_returns _ _ _ _ _ _ (process_turn_post _ idx ideal _ _ _ _ Hd) Hrun)
    as (_ & _ & _ & Hg & _).
Qed.

(** Candidate and baseline hold equally many samples of every metric. *)
Lemma aligned_paired n c :
  aligned n c ->
  length (RawSemanticData.precision (_recsum_semantic_data c))
  = length (RawSemanticData.precision (_baseline_semantic_data c)) /\
  length (RawSemanticData.recall (_recsum_semantic_data c))
  = length (RawSemanticData.recall (_baseline_semantic_data c)) /\
  length (RawSemanticData.f1 (_recsum_semantic_data c))
  = length (RawSemanticData.f1 (_baseline_semantic_data c)) /\
  length (RawLLMData.faithfulness (_recsum_llm_data c))
  = length (RawLLMData.faithfulness (_baseline_llm_data c)) /\
  length (RawLLMData.informativeness (_recsum_llm_data c))
  = length (RawLLMData.informativeness (_baseline_llm_data c)) /\
  length (RawLLMData.coherency (_recsum_llm_data c))
  = length (RawLLMData.coherency (_baseline_llm_data c)).
Proof.
  unfold aligned, buffers. rewrite !Forall_cons. intros Hall. split_and!; lia.
Qed.

(** C8: from buffers of equal length [n], any number of completed turns
    leaves every one of the twelve buffers with exactly one more sample
    per turn, so that candidate and baseline buffers of the same metric
    have equal length. *)
Theorem buffers_equal_length (turns : list (nat * nat * Message)) st n st' :
  aligned n (self st) ->
  for_each turns (fun t => process_turn t.1.1 t.1.2 t.2) st = (Returns tt, st') ->
  aligned (n + length turns) (self st') /\
  length (RawSemanticData.precision (_recsum_semantic_data (self st')))
  = length (RawSemanticData.precision (_baseline_semantic_data (self st'))) /\
  length (RawSemanticData.recall (_recsum_semantic_data (self st')))
  = length (RawSemanticData.recall (_baseline_semantic_data (self st'))) /\
  length (RawSemanticData.f1 (_recsum_semantic_data (self st')))
  = length (RawSemanticData.f1 (_baseline_semantic_data (self st'))) /\
  length (RawLLMData.faithfulness (_recsum_llm_data (self st')))
  = length (RawLLMData.faithfulness (_baseline_llm_data (self st'))) /\
  length (RawLLMData.informativeness (_recsum_llm_data (self st')))
  = length (RawLLMData.informativeness (_baseline_llm_data (self st'))) /\
  length (RawLLMData.coherency (_recsum_llm_data (self st')))
  = length (RawLLMData.coherency (_baseline_llm_data (self st'))).
Proof.
  intros Hal Hrun.
  assert (aligned (n + length turns) (self st')) as Hal'.
  { revert st n Hal Hrun. induction turns as [|[[i idx] ideal] turns IH]; intros st n Hal.
    - cbn. intros [= <-]. by rewrite Nat.add_0_r.
    - cbn [for_each length]. unfold bind.
      destruct (process_turn _ _ _ st) as [[[]|e] st1] eqn:Hturn; [|done].
      intros Hrest. replace (n + S (length turns)) with (n + 1 + length turns) by lia.
      apply (IH st1); [|done].
      eapply aligned_grown; [done|]. by eapply process_turn_grown. }
  split; [done|]. by eapply aligned_paired.
Qed.

(** After a run that returns, started on a fresh calculator, every buffer
    holds one sample per counted turn, and so does the tally. *)
Lemma calculate_aligned ds mem n w st' :
  calculate (mkSt (CalculateMCPMetrics.init ds mem n) w) = (Returns tt, st') ->
  aligned (message_count (self st')) (self st') /\
  PairwiseResults.get_total_count (_pairwise_data (self st')) = message_count (self st').
Proof.
  intros Hrun. apply calculate_returns in Hrun as (_ & _ & _ & _ & _ & k & Hk & Hg & Hj).
  cbn in Hk. rewrite Hk. split.
  - eapply (aligned_grown 0); [|done]. apply aligned_init.
  - destruct Hj as [_ Hj]; [apply tally_wf_new|].
    unfold PairwiseResults.get_total_count. apply (Hj Faithfulness).
Qed.

(** The bound given to the loop of [_process_dialogue] is never reached:
    every raise of the model is a raise of the code. *)
Lemma process_dialogue_within_bound i idx st e st' :
  _process_dialogue i idx st = (Raises e, st') -> e <> LoopBound.
Proof.
  intros Hrun.
  pose proof (messages_pop_post i st) as Hpop. unfold post in Hpop.
  destruct (messages_pop i st) as [[m|e0] st1] eqn:Hm.
  - destruct Hpop as (pre & rest & Hd & _).
    pose proof (post_raises _ _ _ _ _ _ (process_dialogue_post _ idx _ _ _ _ Hd) Hrun)
      as Hfault.
    intros ->. exact Hfault.
  - destruct Hpop as [-> _]. unfold _process_dialogue in Hrun.
    rewrite (bind_raises _ _ _ _ _ Hm) in Hrun. by injection Hrun as <- _.
Qed.

(** C10: the replay of a dialogue whose final session has no message
    raises IndexError when it takes the ideal response, before anything
    is changed; a run over a dataset with such a dialogue does not
    complete. *)
Theorem calculate_needs_final_message st i pre s :
  sessions (self st) !! i = Some (pre ++ [s]) ->
  messages s = [] ->
  (forall idx, _process_dialogue i idx st = (Raises IndexError, st)) /\
  exists e st', calculate st = (Raises e, st').
Proof.
  intros Hd Hs. destruct s as [ms]. cbn in Hs. subst ms. split.
  - intros idx. by eapply process_dialogue_empty.
  - destruct (calculate st) as [[[]|e] st'] eqn:Hrun; [|by eauto].
    apply calculate_returns in Hrun as (_ & _ & _ & _ & Hall & _).
    destruct (Hall i) as (pre' & rest & ideal & Hd' & _); [by eapply lookup_lt_Some|].
    rewrite Hd in Hd'. injection Hd' as Hd'. apply app_inj_tail in Hd' as [_ Hm].
    injection Hm as Hm. by destruct rest.
Qed.


(** Once a run has returned, another [calculate] announces the first
    dialogue, finds its message list empty and raises IndexError; the
    calculator is left as it was. *)
Lemma calculate_again_raises st st1 :
  calculate st = (Returns tt, st1) ->
  sessions (self st) <> [] ->
  calculate st1
  = (Raises IndexError,
     mkSt (self st1)
       (print (processing_line 0 (length (sessions (self st1)))) (world st1))).
Proof.
  intros Hrun Hne.
  apply calculate_returns in Hrun as (_ & Hlen & _ & _ & Hall & _).
  assert (0 < length (sessions (self st))) as H0.
  { destruct (sessions (self st)); [done|cbn; lia]. }
  destruct (Hall 0 H0) as (pre & rest & ideal & _ & Hd1).
  eapply (calculate_raises_at st1 0 st1); [lia|done|].
  rewrite calculate_step_run. by eapply process_dialogue_empty.
Qed.

(** A run that returns has emptied the final message list of every
    dialogue of the dataset. *)
Lemma calculate_empties_sessions st st1 d :
  calculate st = (Returns tt, st1) ->
  d ∈ sessions (self st1) ->
  exists pre, d = pre ++ [mkSession []].
Proof.
  intros Hrun Hd.
  apply calculate_returns in Hrun as (_ & Hlen & _ & _ & Hall & _).
  apply list_elem_of_lookup in Hd as [j Hj].
  destruct (Hall j) as (pre & rest & ideal & _ & Hd1).
  { rewrite <- Hlen. by eapply lookup_lt_Some. }
  exists pre. congruence.
Qed.

End Buffers.

Section Results.

Context {W : Type} `{Collaborators W}.

Implicit Types st : St W.

(** On a calculated object, [results] reads the clock and builds the
    report; it does not run [calculate] and does not change the
    calculator. *)
Lemma results_calculated st :
  _is_calculated (self st) = true ->
  results st
  = (Returns (report (now_isoformat (world st)).1 (self st)),
     mkSt (self st) (now_isoformat (world st)).2).
Proof.
  intros Hc. unfold results, bind, get, ask. cbn. rewrite Hc. cbn.
  by destruct (now_isoformat (world st)).
Qed.

(** An access that returns leaves the object calculated. *)
Lemma results_returns_calculated st r st1 :
  results st = (Returns r, st1) -> _is_calculated (self st1) = true.
Proof.
  destruct (_is_calculated (self st)) eqn:Hc.
  - rewrite (results_calculated _ Hc). by intros [= _ <-].
  - unfold results. unfold bind at 1. cbn [get]. rewrite Hc. unfold bind at 1.
    destruct (calculate st) as [[[]|e] st_c] eqn:Hrun; [|done].
    apply calculate_returns in Hrun as (Hc' & _).
    unfold bind, ask, get. destruct (now_isoformat (world st_c)). cbn.
    by intros [= _ <-].
Qed.

(** C2, as the code has it: [results] keeps no report; every access
    builds one from the accumulators, with the clock read anew.  After an
    access that returned, the next access (with no [calculate] between)
    does not replay anything, leaves the calculator as it is, and returns
    the same statistics, the same tally and the same counts; only the
    timestamp can differ. *)
Theorem results_again_same_statistics st r1 st1 :
  results st = (Returns r1, st1) ->
  exists r2 st2,
    results st1 = (Returns r2, st2) /\
    self st2 = self st1 /\
    MCPResults.recsum_results r2 = MCPResults.recsum_results r1 /\
    MCPResults.baseline_results r2 = MCPResults.baseline_results r1 /\
    MCPResults.pairwise_results r2 = MCPResults.pairwise_results r1 /\
    Metadata.n_samples (MCPResults.metadata r2)
    = Metadata.n_samples (MCPResults.metadata r1) /\
    Metadata.message_count (MCPResults.metadata r2)
    = Metadata.message_count (MCPResults.metadata r1) /\
    Metadata.version (MCPResults.metadata r2)
    = Metadata.version (MCPResults.metadata r1).
Proof.
  intros Hr1. pose proof (results_returns_calculated _ _ _ Hr1) as Hc1.
  rewrite (results_calculated _ Hc1). eexists _, _. split; [done|]. split; [done|].
  assert (exists ts, r1 = report ts (self st1)) as [ts ->]; [|done].
  destruct (_is_calculated (self st)) eqn:Hc.
  - rewrite (results_calculated _ Hc) in Hr1. injection Hr1 as <- <-. by eexists.
  - unfold results in Hr1. unfold bind at 1 in Hr1. cbn [get] in Hr1. rewrite Hc in Hr1.
    unfold bind at 1 in Hr1.
    destruct (calculate st) as [[[]|e] st_c]; [|done].
    unfold bind, ask, get in Hr1. destruct (now_isoformat (world st_c)) as [ts w].
    cbn in Hr1. injection Hr1 as <- <-. by exists ts.
Qed.

End Results.

(** ** Binary64 order facts *)

Section SpecFloatOrder.

Implicit Types a b c : spec_float.

Lemma SFcompare_refl a : a <> S754_nan -> SFcompare a a = Some Eq.
Proof.
  destruct a as [[]|[]| |[] m e]; intros Hn; try done; cbn.
  - by rewrite Z.compare_refl, Pos.compare_cont_refl.
  - by rewrite Z.compare_refl, Pos.compare_cont_refl.
Qed.

Lemma SFleb_refl a : a <> S754_nan -> SFleb a a = true.
Proof. intros Hn. unfold SFleb. by rewrite SFcompare_refl. Qed.

Lemma SFeqb_refl_nan a : SFeqb a a = false <-> a = S754_nan.
Proof.
  split.
  - intros Hf. destruct a as [s|s| |s m e]; [| |done|];
      unfold SFeqb in Hf; by rewrite SFcompare_refl in Hf.
  - by intros ->.
Qed.

Ltac order_cases :=
  repeat match goal with
  | |- context [Z.compare ?x ?y] => destruct (Z.compare_spec x y)
  | H : context [Z.compare ?x ?y] |- _ => destruct (Z.compare_spec x y)
  | |- context [Pos.compare_cont Eq ?x ?y] =>
      change (Pos.compare_cont Eq x y) with (Pos.compare x y);
      destruct (Pos.compare_spec x y)
  | H : context [Pos.compare_cont Eq ?x ?y] |- _ =>
      change (Pos.compare_cont Eq x y) with (Pos.compare x y) in H;
      destruct (Pos.compare_spec x y)
  end; cbn in *; try done; try lia.

Lemma SFleb_total a b :
  a <> S754_nan -> b <> S754_nan -> SFleb a b = false -> SFleb b a = true.
Proof.
  unfold SFleb.
  destruct a as [[]|[]| |[] ma ea], b as [[]|[]| |[] mb eb];
    intros Ha Hb; try done; cbn; order_cases.
Qed.

Lemma SFltb_leb a b : SFltb a b = true -> SFleb a b = true.
Proof. unfold SFltb, SFleb. by destruct (SFcompare a b) as [[]|]. Qed.

Lemma SFltb_total a b :
  a <> S754_nan -> b <> S754_nan -> SFltb a b = false -> SFleb b a = true.
Proof.
  unfold SFltb, SFleb.
  destruct a as [[]|[]| |[] ma ea], b as [[]|[]| |[] mb eb];
    intros Ha Hb; try done; cbn; order_cases.
Qed.

Lemma SFleb_trans a b c : SFleb a b = true -> SFleb b c = true -> SFleb a c = true.
Proof.
  unfold SFleb.
  destruct a as [[]|[]| |[] ma ea], b as [[]|[]| |[] mb eb], c as [[]|[]| |[] mc ec];
    cbn; try done; intros Hab Hbc; order_cases.
Qed.

End SpecFloatOrder.

Module F64Facts.

Import F64.

Lemma is_nan_spec x : PrimFloat.is_nan x = true <-> Prim2SF x = S754_nan.
Proof.
  unfold PrimFloat.is_nan. rewrite FloatAxioms.eqb_spec, negb_true_iff. apply SFeqb_refl_nan.
Qed.

Lemma not_nan_spec x : not_nan x <-> Prim2SF x <> S754_nan.
Proof.
  unfold not_nan. rewrite <- is_nan_spec. by destruct (PrimFloat.is_nan x).
Qed.

Lemma le_refl x : not_nan x -> le x x.
Proof. rewrite not_nan_spec. unfold le. rewrite FloatAxioms.leb_spec. apply SFleb_refl. Qed.

Lemma le_trans x y z : le x y -> le y z -> le x z.
Proof. unfold le. rewrite !FloatAxioms.leb_spec. apply SFleb_trans. Qed.

Lemma le_total x y : not_nan x -> not_nan y -> (x <=? y)%float = false -> le y x.
Proof. rewrite !not_nan_spec. unfold le. rewrite !FloatAxioms.leb_spec. apply SFleb_total. Qed.

Lemma lt_le x y : (x <? y)%float = true -> le x y.
Proof. unfold le. rewrite FloatAxioms.ltb_spec, FloatAxioms.leb_spec. apply SFltb_leb. Qed.

Lemma not_lt_le x y : not_nan x -> not_nan y -> (x <? y)%float = false -> le y x.
Proof.
  rewrite !not_nan_spec. unfold le. rewrite FloatAxioms.ltb_spec, FloatAxioms.leb_spec.
  apply SFltb_total.
Qed.

(** A square root is NaN or not negative. *)
Lemma sqrt_sign x :
  le 0 (PrimFloat.sqrt x) \/ PrimFloat.is_nan (PrimFloat.sqrt x) = true.
Proof.
  unfold le. rewrite is_nan_spec, FloatAxioms.leb_spec, FloatAxioms.sqrt_spec.
  change (Prim2SF 0) with (S754_zero false).
  unfold SF64sqrt, SFsqrt.
  destruct (Prim2SF x) as [[]|[]| |[] m e]; cbn; auto.
  destruct (SFsqrt_core_binary prec emax (Z.pos m) e) as [[mz ez] lz].
  unfold binary_round_aux.
  destruct (shr_fexp prec emax mz ez lz) as [mrs' e'].
  destruct (shr_fexp prec emax _ e' loc_Exact) as [mrs'' e''].
  destruct (shr_m mrs''); cbn; auto.
  destruct (Z.leb e'' (emax - prec)); cbn; auto.
Qed.

End F64Facts.

(** ** [np.min] and [np.max] on arrays without NaN *)

Section MinMax.

Import F64 F64Facts.

Lemma minimum_spec a b :
  not_nan a -> not_nan b ->
  (np.minimum a b = a \/ np.minimum a b = b) /\
  le (np.minimum a b) a /\ le (np.minimum a b) b.
Proof.
  intros Ha Hb. unfold np.minimum. rewrite Ha, orb_false_r.
  destruct (a <? b)%float eqn:Hab.
  - split; [by left|]. split; [by apply le_refl | by apply lt_le].
  - split; [by right|]. split; [by apply not_lt_le | by apply le_refl].
Qed.

Lemma maximum_spec a b :
  not_nan a -> not_nan b ->
  (np.maximum a b = a \/ np.maximum a b = b) /\
  le a (np.maximum a b) /\ le b (np.maximum a b).
Proof.
  intros Ha Hb. unfold np.maximum. rewrite Ha, orb_false_r.
  destruct (b <? a)%float eqn:Hab.
  - split; [by left|]. split; [by apply le_refl | by apply lt_le].
  - split; [by right|]. split; [by apply not_lt_le | by apply le_refl].
Qed.

Lemma min_spec v0 rest :
  Forall not_nan (v0 :: rest) ->
  np.min v0 rest ∈ v0 :: rest /\ Forall (le (np.min v0 rest)) (v0 :: rest).
Proof.
  unfold np.min. revert v0. induction rest as [|x rest IH]; intros v0 Hnn.
  - apply Forall_cons in Hnn as [H0 _]. cbn. split; [by left|].
    constructor; [by apply le_refl | constructor].
  - apply Forall_cons in Hnn as [H0 Hnn]. apply Forall_cons in Hnn as [Hx Hnn].
    destruct (minimum_spec v0 x H0 Hx) as (Hin & Hl0 & Hlx).
    cbn [fold_left].
    destruct (IH (np.minimum v0 x)) as [Hmem Hall].
    { constructor; [|done]. by destruct Hin as [-> | ->]. }
    apply Forall_cons in Hall as [Hm Hall]. split.
    + apply elem_of_cons in Hmem as [->|Hmem].
      * destruct Hin as [-> | ->]; [by left | right; by left].
      * right. by right.
    + constructor; [by eapply le_trans|]. constructor; [by eapply le_trans | done].
Qed.

Lemma max_spec v0 rest :
  Forall not_nan (v0 :: rest) ->
  np.max v0 rest ∈ v0 :: rest /\ Forall (fun x => le x (np.max v0 rest)) (v0 :: rest).
Proof.
  unfold np.max. revert v0. induction rest as [|x rest IH]; intros v0 Hnn.
  - apply Forall_cons in Hnn as [H0 _]. cbn. split; [by left|].
    constructor; [by apply le_refl | constructor].
  - apply Forall_cons in Hnn as [H0 Hnn]. apply Forall_cons in Hnn as [Hx Hnn].
    destruct (maximum_spec v0 x H0 Hx) as (Hin & Hl0 & Hlx).
    cbn [fold_left].
    destruct (IH (np.maximum v0 x)) as [Hmem Hall].
    { constructor; [|done]. by destruct Hin as [-> | ->]. }
    apply Forall_cons in Hall as [Hm Hall]. split.
    + apply elem_of_cons in Hmem as [->|Hmem].
      * destruct Hin as [-> | ->]; [by left | right; by left].
      * right. by right.
    + constructor; [by eapply le_trans|]. constructor; [by eapply le_trans | done].
Qed.

End MinMax.

(** ** [np.sum] adds up the values *)

Section Summation.

Lemma summed_snoc l a x : summed l a -> summed (l ++ [x]) (a + x)%float.
Proof. intros Hl. apply summed_add; [done | constructor]. Qed.

Lemma summed_fold_left tail l acc :
  summed l acc -> summed (l ++ tail) (fold_left PrimFloat.add tail acc).
Proof.
  revert l acc. induction tail as [|x tail IH]; intros l acc Hl; cbn.
  - by rewrite app_nil_r.
  - replace (l ++ x :: tail) with ((l ++ [x]) ++ tail) by by rewrite <- app_assoc.
    by apply IH, summed_snoc.
Qed.

Lemma lanes_summed_combine l r0 r1 r2 r3 r4 r5 r6 r7 :
  lanes_summed l (r0, r1, r2, r3, r4, r5, r6, r7) ->
  summed l (((r0 + r1) + (r2 + r3)) + ((r4 + r5) + (r6 + r7)))%float.
Proof.
  intros (l0 & l1 & l2 & l3 & l4 & l5 & l6 & l7
          & H0 & H1 & H2 & H3 & H4 & H5 & H6 & H7 & Hl).
  eapply summed_perm; [|repeat apply summed_add; eassumption].
  rewrite Hl. by rewrite <- !app_assoc.
Qed.

Lemma lanes_summed_block l r0 r1 r2 r3 r4 r5 r6 r7 x0 x1 x2 x3 x4 x5 x6 x7 :
  lanes_summed l (r0, r1, r2, r3, r4, r5, r6, r7) ->
  lanes_summed (l ++ [x0; x1; x2; x3; x4; x5; x6; x7])
    (r0 + x0, r1 + x1, r2 + x2, r3 + x3, r4 + x4, r5 + x5, r6 + x6, r7 + x7)%float.
Proof.
  intros (l0 & l1 & l2 & l3 & l4 & l5 & l6 & l7
          & H0 & H1 & H2 & H3 & H4 & H5 & H6 & H7 & Hl).
  exists (l0 ++ [x0]), (l1 ++ [x1]), (l2 ++ [x2]), (l3 ++ [x3]),
         (l4 ++ [x4]), (l5 ++ [x5]), (l6 ++ [x6]), (l7 ++ [x7]).
  split_and!; try by apply summed_snoc.
  rewrite Hl. rewrite <- !app_assoc. cbn [app].
  solve_Permutation.
Qed.

Lemma unrolled_summed_below n : forall a l r,
  length a <= n ->
  lanes_summed l r ->
  exists used, a = used ++ (np.unrolled r a).2 /\ lanes_summed (l ++ used) (np.unrolled r a).1.
Proof.
  induction n as [|n IH]; intros a l r Hn Hr.
  { destruct a; [|cbn in Hn; lia]. exists []. cbn. by rewrite app_nil_r. }
  assert (forall short, np.unrolled r short = (r, short) ->
          exists used, short = used ++ (np.unrolled r short).2
                       /\ lanes_summed (l ++ used) (np.unrolled r short).1) as Hshort.
  { intros short ->. exists []. cbn. by rewrite app_nil_r. }
  destruct a as [|x0 [|x1 [|x2 [|x3 [|x4 [|x5 [|x6 [|x7 rest]]]]]]]];
    try (by apply Hshort).
  destruct r as [[[[[[[r0 r1] r2] r3] r4] r5] r6] r7]. cbn [np.unrolled].
  destruct (IH rest (l ++ [x0; x1; x2; x3; x4; x5; x6; x7])
              (r0 + x0, r1 + x1, r2 + x2, r3 + x3, r4 + x4, r5 + x5, r6 + x6, r7 + x7)%float)
    as (used & Hrest & Hsum).
  { cbn in Hn. lia. }
  { by apply lanes_summed_block. }
  exists ([x0; x1; x2; x3; x4; x5; x6; x7] ++ used). split.
  - cbn [app]. by rewrite <- Hrest.
  - by rewrite app_assoc.
Qed.

Lemma unrolled_summed a l r :
  lanes_summed l r ->
  exists used, a = used ++ (np.unrolled r a).2 /\ lanes_summed (l ++ used) (np.unrolled r a).1.
Proof. by apply (unrolled_summed_below (length a)). Qed.

Lemma block_sum_summed a : summed a (np.block_sum a).
Proof.
  assert (summed a (fold_left PrimFloat.add a 0%float)) as Hshort.
  { apply (summed_fold_left a []). constructor. }
  destruct a as [|x0 [|x1 [|x2 [|x3 [|x4 [|x5 [|x6 [|x7 rest]]]]]]]]; try exact Hshort.
  clear Hshort. unfold np.block_sum.
  destruct (unrolled_summed rest [x0; x1; x2; x3; x4; x5; x6; x7]
              (x0, x1, x2, x3, x4, x5, x6, x7)) as (used & Hrest & Hsum).
  { exists [x0], [x1], [x2], [x3], [x4], [x5], [x6], [x7].
    split_and!; try constructor. done. }
  destruct (np.unrolled _ rest) as [[[[[[[[r0 r1] r2] r3] r4] r5] r6] r7] tail].
  cbn [fst snd] in *. apply lanes_summed_combine in Hsum.
  apply (summed_fold_left tail) in Hsum.
  rewrite <- app_assoc, <- Hrest in Hsum. exact Hsum.
Qed.

Lemma pairwise_sum_summed fuel a : summed a (np.pairwise_sum fuel a).
Proof.
  revert a. induction fuel as [|fuel IH]; intros a; cbn [np.pairwise_sum].
  - destruct (_ <=? _)%nat; apply block_sum_summed.
  - destruct (_ <=? _)%nat; [apply block_sum_summed|].
    rewrite <- (take_drop (length a / 2 - (length a / 2) mod 8) a) at 1.
    apply summed_add; apply IH.
Qed.

(** [np.sum] is a floating-point sum of the values. *)
Lemma sum_summed values : summed values (np.sum values).
Proof.
  unfold np.sum. apply (summed_add [] values); [constructor | apply pairwise_sum_summed].
Qed.

End Summation.

(** ** The statements at concrete inputs *)

Module Examples.

Import Stub.



(** C2, counterexample: two accesses in a row return reports that differ,
    the second one built at a later time. *)
Lemma results_rebuilt_example :
  exists r1 st1 r2 st2,
    results (H := steady) one_dialogue = (Returns r1, st1) /\
    results (H := steady) st1 = (Returns r2, st2) /\
    Metadata.timestamp (MCPResults.metadata r1) = "2" /\
    Metadata.timestamp (MCPResults.metadata r2) = "3" /\
    r1 <> r2.
Proof.
  eexists _, _, _, _. split; [vm_compute; reflexivity|].
  split; [vm_compute; reflexivity|].
  split; [reflexivity|]. split; [reflexivity|].
  intros Heq. apply (f_equal (fun r => Metadata.timestamp (MCPResults.metadata r))) in Heq.
  cbn in Heq. discriminate Heq.
Qed.

Lemma results_again_same_statistics_witness :
  exists r1 st1 r2 st2,
    results (H := steady) one_dialogue = (Returns r1, st1) /\
    results (H := steady) st1 = (Returns r2, st2) /\
    self st2 = self st1 /\
    MCPResults.recsum_results r2 = MCPResults.recsum_results r1 /\
    MCPResults.baseline_results r2 = MCPResults.baseline_results r1 /\
    MCPResults.pairwise_results r2 = MCPResults.pairwise_results r1.
Proof.
  eexists _, _.
  assert (results (H := steady) one_dialogue
          = (Returns (report "2" (self (calculate (H := steady) one_dialogue).2)),
             mkSt (self (calculate (H := steady) one_dialogue).2) 3)) as Hfirst.
  { vm_compute. reflexivity. }
  destruct (results_again_same_statistics (H := steady) _ _ _ Hfirst)
    as (r2 & st2 & Hsecond & Hself & Hrec & Hbase & Hpair & _).
  exists r2, st2. split; [exact Hfirst|]. split; [exact Hsecond|].
  split; [exact Hself|]. split; [exact Hrec|]. split; [exact Hbase | exact Hpair].
Defined.

(** C3: after a completed run over one dialogue, a second [calculate]
    raises IndexError (and leaves the calculator as it was). *)
Lemma second_calculate_raises_example :
  exists st1,
    calculate (H := steady) one_dialogue = (Returns tt, st1) /\
    calculate (H := steady) st1 = (Raises IndexError, st1).
Proof. eexists. split; vm_compute; reflexivity. Qed.

(** C4: a run over one dialogue of three turns returns, and the dataset's
    stored session, which held the three messages, has none left. *)
Lemma calculate_empties_dataset_example :
  exists st1,
    calculate (H := steady) one_dialogue = (Returns tt, st1) /\
    sessions (self one_dialogue)
    = [[mkSession [user "q1"; user "q2"; user "ideal"]]] /\
    sessions (self st1) = [[mkSession []]].
Proof.
  eexists. split; [vm_compute; reflexivity|]. split; reflexivity.
Qed.

(** The scenario of one dialogue with three turns and constant scorers:
    two samples per buffer, a mean precision of 0.5, two judgments. *)
Example three_turn_scenario :
  exists r st1,
    results (H := steady) one_dialogue = (Returns r, st1) /\
    MetricStats.mean (SystemResults.semantic_precision (MCPResults.recsum_results r))
    = 0.5%float /\
    MetricStats.count (SystemResults.semantic_precision (MCPResults.recsum_results r))
    = 2 /\
    MetricStats.mean (SystemResults.llm_faithfulness (MCPResults.recsum_results r))
    = 4%float /\
    MetricStats.mean (SystemResults.llm_faithfulness (MCPResults.baseline_results r))
    = 3%float /\
    PairwiseResults.get_total_count (MCPResults.pairwise_results r) = 2.
Proof.
  eexists _, _. split; [vm_compute; reflexivity|]. repeat split; reflexivity.
Qed.

Lemma pairwise_order_debiasing_witness :
  exists p',
    _update_llm_pairwise_scores (H := steady) "context" "memory" "candidate" "baseline"
      (mkSt (self one_dialogue) 1)
    = (Returns tt, mkSt (set_pairwise p' (self one_dialogue)) 2) /\
    one_more RESPONSE_1_BETTER false
      (PairwiseResults.faithfulness (_pairwise_data (self one_dialogue)))
      (PairwiseResults.faithfulness p') /\
    one_more RESPONSE_2_BETTER false
      (PairwiseResults.informativeness (_pairwise_data (self one_dialogue)))
      (PairwiseResults.informativeness p') /\
    one_more TIE false
      (PairwiseResults.coherency (_pairwise_data (self one_dialogue)))
      (PairwiseResults.coherency p').
Proof.
  apply (pairwise_order_debiasing (H := steady) "context" "memory" "candidate" "baseline"
           (mkSt (self one_dialogue) 1) false 2 verdict 2).
  - apply tally_wf_new.
  - reflexivity.
  - reflexivity.
Defined.


Lemma buffers_equal_length_witness :
  aligned (0 + 2)
    (self (for_each [(0, 0, user "ideal"); (0, 0, user "ideal")]
             (fun t => process_turn (H := steady) t.1.1 t.1.2 t.2) one_dialogue).2).
Proof.
  apply (buffers_equal_length (H := steady)
           [(0, 0, user "ideal"); (0, 0, user "ideal")] one_dialogue 0).
  - apply aligned_init.
  - vm_compute. reflexivity.
Defined.

Lemma calculate_needs_final_message_witness :
  (forall idx,
     _process_dialogue (H := steady) 0 idx (start [no_message])
     = (Raises IndexError, start [no_message])) /\
  exists e st', calculate (H := steady) (start [no_message]) = (Raises e, st').
Proof.
  apply (calculate_needs_final_message (H := steady) (start [no_message]) 0 []
           (mkSession [])).
  - reflexivity.
  - reflexivity.
Defined.

End Examples.

(** ** [MetricStats.from_values] *)

(** C9, as the code has it: for the empty list the result is the all-zero
    sentinel.  For a non-empty list of [N] values, [count] is [N]; [mean]
    is a floating-point sum of the values divided by [N]; [std] is the
    square root of a floating-point sum of the squared deviations from
    that mean, divided by [N] (the population figure, not [N - 1]), and
    is NaN or not negative; when no value is NaN, [min] and [max] bound
    every value of the list, so [min <= max].  Nothing is said of the
    position of [mean] relative to [min] and [max]. *)
Theorem from_values_spec (values : list float) :
  (values = [] -> MetricStats.from_values values = MetricStats.mk 0 0 0 0 0) /\
  (values <> [] ->
   let stats := MetricStats.from_values values in
   let N := F64.of_nat (length values) in
   MetricStats.count stats = length values /\
   (exists total,
      summed values total /\
      MetricStats.mean stats = (total / N)%float) /\
   (exists total,
      summed
        (map (fun x => ((x - MetricStats.mean stats) * (x - MetricStats.mean stats))%float)
           values)
        total /\
      MetricStats.std stats = PrimFloat.sqrt (total / N)) /\
   (F64.le 0 (MetricStats.std stats) \/ PrimFloat.is_nan (MetricStats.std stats) = true) /\
   (Forall F64.not_nan values ->
    F64.le (MetricStats.min stats) (MetricStats.max stats) /\
    Forall (fun x => F64.le (MetricStats.min stats) x /\ F64.le x (MetricStats.max stats))
      values)).
Proof.
  split; [by intros ->|]. intros Hne.
  destruct values as [|v0 rest]; [done|]. cbn zeta. cbn [MetricStats.from_values
    MetricStats.count MetricStats.mean MetricStats.std MetricStats.min MetricStats.max].
  split; [done|]. split.
  { eexists. split; [apply sum_summed|done]. }
  split.
  { eexists. split; [apply sum_summed|]. unfold np.std, np.var. by rewrite map_map. }
  split; [apply F64Facts.sqrt_sign|].
  intros Hnn. destruct (min_spec v0 rest Hnn) as [Hmin_in Hmin].
  destruct (max_spec v0 rest Hnn) as [Hmax_in Hmax]. split.
  - rewrite Forall_forall in Hmin. by apply Hmin.
  - rewrite Forall_forall in Hmin, Hmax. apply Forall_forall. intros x Hx.
    split; [by apply Hmin | by apply Hmax].
Qed.

Module FromValuesExamples.

Import Stub.

(** C9, counterexample: for three values equal to [0.1] the sum rounds up
    to [0.30000000000000004] and the mean to [0.10000000000000002], which
    is above [max = 0.1]. *)
Lemma from_values_mean_above_max :
  MetricStats.mean (MetricStats.from_values [tenth; tenth; tenth])
  = 0x1.999999999999bp-4%float /\
  MetricStats.max (MetricStats.from_values [tenth; tenth; tenth]) = tenth /\
  (MetricStats.mean (MetricStats.from_values [tenth; tenth; tenth])
   <=? MetricStats.max (MetricStats.from_values [tenth; tenth; tenth]))%float = false.
Proof. split; [reflexivity|]. split; reflexivity. Qed.

Lemma from_values_spec_witness :
  MetricStats.count (MetricStats.from_values [1%float; 3%float]) = 2 /\
  (exists total,
     summed [1%float; 3%float] total /\
     MetricStats.mean (MetricStats.from_values [1%float; 3%float])
     = (total / F64.of_nat 2)%float) /\
  F64.le (MetricStats.min (MetricStats.from_values [1%float; 3%float]))
         (MetricStats.max (MetricStats.from_values [1%float; 3%float])).
Proof.
  destruct (from_values_spec [1%float; 3%float]) as [_ Hspec].
  destruct Hspec as (Hcount & Hmean & _ & _ & Hbounds); [discriminate|].
  destruct Hbounds as [Hle _]; [repeat constructor|].
  split; [exact Hcount|]. split; [exact Hmean | exact Hle].
Defined.

(** The population figure: the deviation of [1; 3] is 1 (dividing by
    N - 1 would give the square root of 2). *)
Example from_values_one_three :
  MetricStats.from_values [1%float; 3%float] = MetricStats.mk 2 1 1 3 2.
Proof. reflexivity. Qed.

(** Eight values are added in eight running sums combined in pairs:
    the sum of eight times [0.1] is [0.8] and the mean is [0.1], where
    adding left to right would give [0.7999999999999999]. *)
Example from_values_eight_tenths :
  MetricStats.from_values (repeat tenth 8) = MetricStats.mk tenth 0 tenth tenth 8 /\
  fold_left PrimFloat.add (repeat tenth 8) 0%float = 0x1.9999999999999p-1%float.
Proof. split; reflexivity. Qed.

End FromValuesExamples.

(** ** Further properties of the run *)

Section Completion.

Context {W : Type} `{Collaborators W}.

Implicit Types st : St W.

Lemma turns_cons d (l : list (list Session)) :
  sum_list (turns_of <$> d :: l) = turns_of d + sum_list (turns_of <$> l).
Proof. reflexivity. Qed.

Lemma replay_completes total l pfx st :
  sessions (self st) = pfx ++ l ->
  Forall replayable l ->
  (forall i, i < length (sessions (self st)) -> memory_ok i (self st)) ->
  reliable ->
  tally_wf (_pairwise_data (self st)) ->
  exists st',
    for_each (seq (length pfx) (length l)) (calculate_step total) st
    = (Returns tt, st') /\
    message_count (self st')
    = message_count (self st) + sum_list (turns_of <$> l) /\
    grown (sum_list (turns_of <$> l)) (self st) (self st') /\
    judged (sum_list (turns_of <$> l)) (_pairwise_data (self st))
      (_pairwise_data (self st')).
Proof.
  revert pfx st. induction l as [|d l IH]; intros pfx st Hs Hall Hmem Hrel Hwf.
  - exists st. cbn. split_and!; [done | lia | apply grown_refl | by apply judged_refl].
  - apply Forall_cons in Hall as [(pre & [ms] & -> & Hne) Hall]. cbn in Hne.
    destruct ms as [|ideal rest _] using rev_ind; [done|].
    assert (sessions (self st) !! length pfx
            = Some (pre ++ [mkSession (rest ++ [ideal])])) as Hd.
    { rewrite Hs. by rewrite list_lookup_middle. }
    assert (length pfx < length (sessions (self st))) as Hlt by by eapply lookup_lt_Some.
    set (st0 := mkSt (self st) (print (processing_line (length pfx) total) (world st))).
    pose proof (process_dialogue_post (length pfx) (length pfx) st0 pre rest ideal Hd) as Hp.
    unfold post in Hp.
    destruct (_process_dialogue (length pfx) (length pfx) st0) as [[[]|e] st1] eqn:Hrun.
    2:{ exfalso. destruct e; cbn in Hp; [by apply Hp, Hmem | done | done | done]. }
    destruct Hp as (Hs1 & Hc1 & Hm1 & Hg1 & Hj1). specialize (Hj1 Hwf).
    subst st0. cbn [self] in *.
    destruct (IH (pfx ++ [pre ++ [mkSession []]]) st1) as (st' & Hrest & Hc & Hg & Hj).
    + rewrite Hs1, Hs. rewrite <- app_assoc. cbn.
      replace (length pfx) with (length pfx + 0) by lia.
      by rewrite insert_app_r.
    + done.
    + intros i Hi. unfold memory_ok. rewrite Hm1. apply Hmem.
      rewrite Hs1, length_insert in Hi. done.
    + done.
    + apply Hj1.
    + rewrite length_app in Hrest. cbn [length] in Hrest.
      replace (length pfx + 1) with (S (length pfx)) in Hrest by lia.
      exists st'. cbn [length seq for_each].
      rewrite (bind_returns (calculate_step total (length pfx)) _ st _ _ Hrun).
      assert (turns_of (pre ++ [mkSession (rest ++ [ideal])]) = length rest) as Ht.
      { unfold turns_of. rewrite last_snoc. cbn. rewrite length_app. cbn. lia. }
      rewrite turns_cons, Ht.
      split_and!; [done | lia | by eapply grown_trans | by eapply judged_trans].
Qed.

(** X1: When the dataset is well formed and no collaborator raises,
    [calculate] returns: every dialogue has been replayed, the turn
    counter has advanced by the turns of all dialogues, every buffer
    holds that many more samples and the object is marked calculated. *)
Theorem calculate_completes st :
  Forall replayable (sessions (self st)) ->
  (forall i, i < length (sessions (self st)) -> memory_ok i (self st)) ->
  reliable ->
  tally_wf (_pairwise_data (self st)) ->
  exists st',
    calculate st = (Returns tt, st') /\
    _is_calculated (self st') = true /\
    message_count (self st')
    = message_count (self st) + sum_list (turns_of <$> sessions (self st)) /\
    grown (sum_list (turns_of <$> sessions (self st))) (self st) (self st') /\
    PairwiseResults.get_total_count (_pairwise_data (self st'))
    = PairwiseResults.get_total_count (_pairwise_data (self st))
      + sum_list (turns_of <$> sessions (self st)).
Proof.
  intros Hall Hmem Hrel Hwf.
  destruct (replay_completes (length (seq 0 (length (sessions (self st)))))
              (sessions (self st)) [] st eq_refl Hall Hmem Hrel Hwf)
    as (st1 & Hrun & Hc & Hg & Hj).
  cbn [length] in Hrun.
  exists (mkSt (set_is_calculated true (self st1)) (world st1)). split.
  - unfold calculate. unfold bind at 1. cbn [get].
    by rewrite (bind_returns _ _ _ _ _ Hrun).
  - cbn. split_and!; [done..|]. destruct Hj as [_ Hj].
    unfold PairwiseResults.get_total_count. apply (Hj Faithfulness).
Qed.

End Completion.

Ltac failed_here :=
  simpl_state; split_and!; [done | done | done |];
  unfold grown_at_most_one, buffers; unfold_appends; cbn;
  repeat (lazymatch goal with
          | |- Forall2 _ (_ :: _) (_ :: _) =>
              constructor; [first [by left | right; by eexists] |]
          end);
  constructor.

Section AfterFailure.

Context {W : Type} `{Collaborators W}.

Implicit Types st : St W.

Lemma from_values_count values :
  MetricStats.count (MetricStats.from_values values) = length values.
Proof. by destruct values. Qed.

Lemma report_counts_buffers ts c :
  report_counts (report ts c) = length <$> buffers c.
Proof.
  unfold report_counts, report, system_results, buffers. cbn.
  by rewrite !from_values_count.
Qed.

(** A first access that returns has run [calculate] and reports on the
    state it left. *)
Lemma results_first_inv st r st1 :
  _is_calculated (self st) = false ->
  results st = (Returns r, st1) ->
  exists st_c ts,
    calculate st = (Returns tt, st_c) /\ self st1 = self st_c /\
    r = report ts (self st_c).
Proof.
  intros Hflag. unfold results. unfold bind at 1. cbn [get]. rewrite Hflag.
  unfold bind at 1.
  destruct (calculate st) as [[[]|e] st_c]; [|done].
  unfold bind, ask, get. destruct (now_isoformat (world st_c)) as [ts w1]. cbn.
  intros [= <- <-]. by exists st_c, ts.
Qed.

(** X2: The report of a fresh calculator agrees with itself: each of the
    twelve statistics counts as many samples as the metadata counts
    turns, and so does the pairwise tally. *)
Theorem fresh_results_consistent ds mem n w r st1 :
  results (mkSt (CalculateMCPMetrics.init ds mem n) w) = (Returns r, st1) ->
  Forall (fun c => c = Metadata.message_count (MCPResults.metadata r)) (report_counts r) /\
  PairwiseResults.get_total_count (MCPResults.pairwise_results r)
  = Metadata.message_count (MCPResults.metadata r).
Proof.
  intros Hres. apply results_first_inv in Hres as (st_c & ts & Hrun & _ & ->); [|done].
  apply calculate_aligned in Hrun as [Hal Htot].
  rewrite report_counts_buffers. cbn [report MCPResults.metadata MCPResults.pairwise_results
    Metadata.message_count]. split; [|done].
  unfold aligned in Hal. rewrite Forall_fmap. eapply Forall_impl; [exact Hal|].
  cbn. done.
Qed.

(** X3: A run that failed after its first dialogue cannot be resumed: the
    first dialogue has been consumed, so every later [calculate], and
    every later access to [results], announces the first dialogue and
    raises IndexError; the calculator is left as it was. *)
Theorem failed_run_cannot_resume st i st_i e st' :
  1 <= i ->
  i < length (sessions (self st)) ->
  _is_calculated (self st) = false ->
  for_each (seq 0 i) (calculate_step (length (sessions (self st)))) st
  = (Returns tt, st_i) ->
  calculate_step (length (sessions (self st))) i st_i = (Raises e, st') ->
  let announced :=
    mkSt (self st')
      (print (processing_line 0 (length (sessions (self st')))) (world st')) in
  calculate st' = (Raises IndexError, announced) /\
  results st' = (Raises IndexError, announced).
Proof.
  intros Hi Hlt Hflag Hbefore Hfail announced.
  pose proof (post_returns _ _ _ _ _ _
                (replay_post (length (sessions (self st))) 0 i st) Hbefore) as [Hdone _].
  destruct (Hdone 0) as (pre & rest & ideal & _ & Hd0); [lia|].
  pose proof (respects_run _ _ st
                (frame_sessions_below (length (sessions (self st))) 0 i)) as Hf1.
  rewrite Hbefore in Hf1. cbn in Hf1.
  pose proof (respects_run _ _ st_i
                (frame_calculate_step (only i) (length (sessions (self st))) i eq_refl))
    as Hf2.
  rewrite Hfail in Hf2. cbn in Hf2.
  destruct Hf1 as (Hl1 & _ & _ & _ & Hc1 & _).
  destruct Hf2 as (Hl2 & Hs2 & _ & _ & Hc2 & _).
  assert (sessions (self st') !! 0 = Some (pre ++ [mkSession []])) as Hd.
  { rewrite Hs2; [done|]. unfold only. lia. }
  assert (calculate st' = (Raises IndexError, announced)) as Hcalc.
  { eapply (calculate_raises_at st' 0 st'); [lia | done |].
    rewrite calculate_step_run. by eapply process_dialogue_empty. }
  split; [done|].
  unfold results. unfold bind at 1. cbn [get].
  replace (_is_calculated (self st')) with false by congruence.
  by apply bind_raises.
Qed.

Lemma memory_last_pure idx st :
  post (memory_last idx) st (fun _ st' => st' = st) (fun _ st' => st' = st).
Proof. unfold memory_last. by wp. Qed.

Lemma process_turn_raises_post i idx ideal st pre rest q :
  sessions (self st) !! i = Some (pre ++ [mkSession (rest ++ [q])]) ->
  tally_wf (_pairwise_data (self st)) ->
  post (process_turn i idx ideal) st (fun _ _ => True)
    (fun _ st' =>
       sessions (self st') = <[i := pre ++ [mkSession rest]]> (sessions (self st)) /\
       message_count (self st') = message_count (self st) + 1 /\
       _pairwise_data (self st') = _pairwise_data (self st) /\
       grown_at_most_one (self st) (self st')).
Proof.
  intros Hd Hwf.
  assert (i < length (sessions (self st))) as Hi by by eapply lookup_lt_Some.
  unfold process_turn. wp_step. wp_step.
  apply post_bind. eapply post_eq; [by apply messages_pop_run|]. simpl_state.
  apply post_bind. eapply post_eq.
  { apply the_dialogue_run. cbn. by apply list_lookup_insert_eq. }
  wp_step; wp_step; [|failed_here].
  wp_step; wp_step; [|failed_here].
  unfold _update_semantic_scores, append_recsum_semantic, append_baseline_semantic.
  wp; try failed_here.
  eapply post_eq.
  { eapply dialogue_last_run. simpl_state. by apply list_lookup_insert_eq. }
  apply post_bind. eapply post_mono; [apply memory_last_pure| |]; cbn beta;
    [intros memory ? -> | intros ? ? ->; failed_here].
  unfold _update_llm_single_scores, append_recsum_llm, append_baseline_llm.
  wp; try failed_here.
  unfold _update_llm_pairwise_scores. wp_step. wp_step.
  match goal with |- post (if ?b then _ else _) _ _ _ => destruct b end.
  all: wp_step; wp_step; [|failed_here].
  all: eapply post_mono; [apply update_pairwise_counts_post| |]; cbn beta; [done|].
  all: by intros ? ? [_ Hn].
Qed.

(** X4: A turn that raises has been counted and has consumed its query: the
    turn counter is one higher, the query is gone from the dialogue, no
    buffer has more than one new sample, and the tally is as before. *)
Theorem failed_turn_effects i idx ideal st pre rest q e st' :
  sessions (self st) !! i = Some (pre ++ [mkSession (rest ++ [q])]) ->
  tally_wf (_pairwise_data (self st)) ->
  process_turn i idx ideal st = (Raises e, st') ->
  sessions (self st') = <[i := pre ++ [mkSession rest]]> (sessions (self st)) /\
  message_count (self st') = message_count (self st) + 1 /\
  _pairwise_data (self st') = _pairwise_data (self st) /\
  grown_at_most_one (self st) (self st').
Proof.
  intros Hd Hwf Hrun.
  exact (post_raises _ _ _ _ _ _ (process_turn_raises_post _ idx ideal _ _ _ _ Hd Hwf) Hrun).
Qed.

End AfterFailure.


(** ** [MetricStats.from_values] on lists with NaN *)

Section NaN.

Import F64 F64Facts.

Lemma add_nan_l a b : is_NaN a -> is_NaN (a + b)%float.
Proof.
  unfold is_NaN. rewrite !is_nan_spec, FloatAxioms.add_spec. by intros ->.
Qed.

Lemma add_nan_r a b : is_NaN b -> is_NaN (a + b)%float.
Proof.
  unfold is_NaN. rewrite !is_nan_spec, FloatAxioms.add_spec. intros ->.
  by destruct (Prim2SF a) as [[]|[]| |[] ? ?].
Qed.

Lemma sub_nan_r a b : is_NaN b -> is_NaN (a - b)%float.
Proof.
  unfold is_NaN. rewrite !is_nan_spec, FloatAxioms.sub_spec. intros ->.
  by destruct (Prim2SF a) as [[]|[]| |[] ? ?].
Qed.

Lemma mul_nan_l a b : is_NaN a -> is_NaN (a * b)%float.
Proof.
  unfold is_NaN. rewrite !is_nan_spec, FloatAxioms.mul_spec. by intros ->.
Qed.

Lemma div_nan_l a b : is_NaN a -> is_NaN (a / b)%float.
Proof.
  unfold is_NaN. rewrite !is_nan_spec, FloatAxioms.div_spec. by intros ->.
Qed.

Lemma sqrt_nan a : is_NaN a -> is_NaN (PrimFloat.sqrt a).
Proof.
  unfold is_NaN. rewrite !is_nan_spec, FloatAxioms.sqrt_spec. by intros ->.
Qed.

Lemma leb_nan_r a b : is_NaN b -> (a <=? b)%float = false.
Proof.
  unfold is_NaN. rewrite is_nan_spec, FloatAxioms.leb_spec. intros ->.
  by destruct (Prim2SF a) as [[]|[]| |[] ? ?].
Qed.

Lemma summed_nan l total : summed l total -> Exists is_NaN l -> is_NaN total.
Proof.
  induction 1 as [|x|l1 l2 a b _ IH1 _ IH2|l l' a Hperm _ IH]; intros Hex.
  - by apply Exists_nil in Hex.
  - by apply Exists_cons in Hex as [?|?%Exists_nil].
  - apply Exists_app in Hex as [?|?]; [apply add_nan_l | apply add_nan_r]; auto.
  - apply IH. apply Exists_exists in Hex as (x & Hin & Hx).
    apply Exists_exists. exists x. by rewrite Hperm.
Qed.

Lemma sum_nan l : Exists is_NaN l -> is_NaN (np.sum l).
Proof. apply summed_nan, sum_summed. Qed.

Lemma ltb_nan_r a b : is_NaN b -> (a <? b)%float = false.
Proof.
  unfold is_NaN. rewrite is_nan_spec, FloatAxioms.ltb_spec. intros ->.
  by destruct (Prim2SF a) as [[]|[]| |[] ? ?].
Qed.

Lemma minimum_nan a b : is_NaN a \/ is_NaN b -> is_NaN (np.minimum a b).
Proof.
  unfold np.minimum, is_NaN. intros [Ha|Hb].
  - by rewrite Ha, orb_true_r.
  - rewrite (ltb_nan_r a b Hb). cbn. by destruct (PrimFloat.is_nan a) eqn:Ha.
Qed.

Lemma maximum_nan a b : is_NaN a \/ is_NaN b -> is_NaN (np.maximum a b).
Proof.
  unfold np.maximum, is_NaN. intros [Ha|Hb].
  - by rewrite Ha, orb_true_r.
  - destruct (PrimFloat.is_nan a) eqn:Ha; [by rewrite orb_true_r|].
    rewrite orb_false_r.
    assert ((b <? a)%float = false) as ->; [|done].
    apply is_nan_spec in Hb. rewrite FloatAxioms.ltb_spec, Hb. done.
Qed.

Lemma fold_minimum_nan l acc :
  is_NaN acc \/ Exists is_NaN l -> is_NaN (fold_left np.minimum l acc).
Proof.
  revert acc. induction l as [|x l IH]; intros acc Hn; cbn.
  - destruct Hn as [?|Hn]; [done|]. by apply Exists_nil in Hn.
  - apply IH. destruct Hn as [Ha|Hn].
    + left. apply minimum_nan. by left.
    + apply Exists_cons in Hn as [Hx|Hn]; [|by right].
      left. apply minimum_nan. by right.
Qed.

Lemma fold_maximum_nan l acc :
  is_NaN acc \/ Exists is_NaN l -> is_NaN (fold_left np.maximum l acc).
Proof.
  revert acc. induction l as [|x l IH]; intros acc Hn; cbn.
  - destruct Hn as [?|Hn]; [done|]. by apply Exists_nil in Hn.
  - apply IH. destruct Hn as [Ha|Hn].
    + left. apply maximum_nan. by left.
    + apply Exists_cons in Hn as [Hx|Hn]; [|by right].
      left. apply maximum_nan. by right.
Qed.

(** X5: One NaN among the values makes all four statistics NaN. *)
Theorem from_values_nan (values : list float) :
  Exists is_NaN values ->
  is_NaN (MetricStats.mean (MetricStats.from_values values)) /\
  is_NaN (MetricStats.std (MetricStats.from_values values)) /\
  is_NaN (MetricStats.min (MetricStats.from_values values)) /\
  is_NaN (MetricStats.max (MetricStats.from_values values)).
Proof.
  intros Hex. destruct values as [|v0 rest]; [by apply Exists_nil in Hex|].
  cbn [MetricStats.from_values MetricStats.mean MetricStats.std MetricStats.min
       MetricStats.max].
  assert (is_NaN (np.mean (v0 :: rest))) as Hmean.
  { unfold np.mean. by apply div_nan_l, sum_nan. }
  split; [done|]. split.
  - unfold np.std, np.var. apply sqrt_nan, div_nan_l, sum_nan.
    cbn [map]. left. apply mul_nan_l. by apply sub_nan_r.
  - apply Exists_cons in Hex. split.
    + apply fold_minimum_nan. tauto.
    + apply fold_maximum_nan. tauto.
Qed.

(** X6: On a non-empty list without NaN, [min] and [max] are values of the
    list. *)
Theorem from_values_extremes_attained (values : list float) :
  values <> [] ->
  Forall not_nan values ->
  MetricStats.min (MetricStats.from_values values) ∈ values /\
  MetricStats.max (MetricStats.from_values values) ∈ values.
Proof.
  intros Hne Hnn. destruct values as [|v0 rest]; [done|].
  cbn [MetricStats.from_values MetricStats.min MetricStats.max].
  split; [by apply min_spec | by apply max_spec].
Qed.

End NaN.

(** ** The run with a log of its calls *)

Section Logged.

Context {W : Type} (H : Collaborators W).

Lemma simulates_ret {A} (a : A) : simulates (W := W) (ret a) (ret a).
Proof. done. Qed.

Lemma simulates_raise {A} e : simulates (W := W) (raise (A := A) e) (raise e).
Proof. done. Qed.

Lemma simulates_get {A} (f : CalculateMCPMetrics.t -> A) : simulates (W := W) (get f) (get f).
Proof. done. Qed.

Lemma simulates_modify f : simulates (W := W) (modify f) (modify f).
Proof. done. Qed.

Lemma simulates_lookup_or {A} e (o : option A) :
  simulates (W := W) (lookup_or e o) (lookup_or e o).
Proof. by destruct o. Qed.

Lemma simulates_call {A} c (f : W -> option A * W) :
  simulates (call (logging c f)) (call f).
Proof.
  intros [c0 [w l]]. unfold call, logging, erase. cbn.
  by destruct (f w) as [[a|] w'].
Qed.

Lemma simulates_ask {A} c (f : W -> A * W) :
  simulates (ask (logging c f)) (ask f).
Proof.
  intros [c0 [w l]]. unfold ask, logging, erase. cbn.
  by destruct (f w) as [a w'].
Qed.

Lemma simulates_print_line line :
  simulates (print_line (H := logged H) line) (print_line (H := H) line).
Proof. by intros [c0 [w l]]. Qed.

Lemma simulates_bind {A B} (m' : M (W * list Call) A) (m : M W A) (k' : A -> M (W * list Call) B) (k : A -> M W B) :
  simulates m' m -> (forall a, simulates (k' a) (k a)) ->
  simulates (bind m' k') (bind m k).
Proof.
  intros Hm Hk st. unfold bind. rewrite (Hm st).
  destruct (m' st) as [[a|e] st1]; cbn; [apply Hk | done].
Qed.

Lemma simulates_for_each {A} (l : list A) (b' : A -> M (W * list Call) unit) (b : A -> M W unit) :
  (forall x, simulates (b' x) (b x)) -> simulates (for_each l b') (for_each l b).
Proof.
  intros Hb. induction l as [|x l IH]; cbn; [apply simulates_ret|].
  apply simulates_bind; [apply Hb | intros _; apply IH].
Qed.

End Logged.

Ltac simulates_step :=
  lazymatch goal with
  | |- simulates (bind _ _) (bind _ _) => apply simulates_bind; [| intros ?]
  | |- simulates (ret _) (ret _) => apply simulates_ret
  | |- simulates (raise _) (raise _) => apply simulates_raise
  | |- simulates (get _) (get _) => apply simulates_get
  | |- simulates (modify _) (modify _) => apply simulates_modify
  | |- simulates (lookup_or _ _) (lookup_or _ _) => apply simulates_lookup_or
  | |- simulates (call _) (call _) => apply simulates_call
  | |- simulates (ask _) (ask _) => apply simulates_ask
  | |- simulates (for_each _ _) (for_each _ _) => apply simulates_for_each; intros ?
  | |- simulates (if ?b then _ else _) (if ?b then _ else _) => destruct b
  | |- simulates (let '(_, _) := ?p in _) _ => destruct p
  | |- simulates (match ?x with _ => _ end) _ => destruct x
  end.

Ltac simulates_auto := repeat (first [ assumption | solve [auto 2] | simulates_step ]).

Section Erasure.

Context {W : Type} (H : Collaborators W).

Lemma simulates_messages_pop i : simulates (W := W) (messages_pop i) (messages_pop i).
Proof. unfold messages_pop, the_dialogue. simulates_auto. Qed.

Lemma simulates_dialogue_last i : simulates (W := W) (dialogue_last i) (dialogue_last i).
Proof. unfold dialogue_last, the_dialogue. simulates_auto. Qed.

Lemma simulates_process_turn i idx ideal :
  simulates (process_turn (H := logged H) i idx ideal) (process_turn (H := H) i idx ideal).
Proof.
  pose proof (simulates_messages_pop i). pose proof (simulates_dialogue_last i).
  unfold process_turn, the_dialogue, memory_last,
    _update_semantic_scores, append_recsum_semantic, append_baseline_semantic,
    _update_llm_single_scores, append_recsum_llm, append_baseline_llm,
    _update_llm_pairwise_scores, _update_pairwise_counts, count_metric, result_dict_incr.
  simulates_auto.
Qed.

Lemma simulates_while_messages bound i idx ideal :
  simulates (while_messages (H := logged H) bound i idx ideal)
            (while_messages (H := H) bound i idx ideal).
Proof.
  pose proof (simulates_dialogue_last i). pose proof (simulates_process_turn i idx ideal).
  induction bound as [|bound IH]; cbn; simulates_auto.
Qed.

Lemma simulates_process_dialogue i idx :
  simulates (_process_dialogue (H := logged H) i idx) (_process_dialogue (H := H) i idx).
Proof.
  pose proof (simulates_messages_pop i). pose proof (simulates_dialogue_last i).
  pose proof (fun b ideal => simulates_while_messages b i idx ideal).
  unfold _process_dialogue. simulates_auto.
Qed.

(** The logged run is the run: with the log erased, [calculate] with the
    logging collaborators has the outcome and the final state of
    [calculate] with the collaborators themselves. *)
Lemma simulates_calculate :
  simulates (calculate (H := logged H)) (calculate (H := H)).
Proof.
  pose proof simulates_process_dialogue. pose proof (simulates_print_line H).
  unfold calculate, calculate_step. simulates_auto.
Qed.

Lemma reliable_logged : reliable (H := H) -> reliable (H := logged H).
Proof.
  intros (Hr & Hb & Hs & Hl & Hp). repeat split; intros; cbn; unfold logging; cbn; auto.
Qed.

End Erasure.

(** ** The calls of the replay *)

Section LoggedCalls.

Context {W : Type}.

Implicit Types st : St (W * list Call).

Lemma post_logged_call {A} (c : option A -> Call) (f : W -> option A * W) st
    (Q : A -> St (W * list Call) -> Prop) E :
  (forall a w, f (world st).1 = (Some a, w) ->
     Q a (mkSt (self st) (w, (world st).2 ++ [c (Some a)]))) ->
  (forall w, f (world st).1 = (None, w) ->
     E ExternalError (mkSt (self st) (w, (world st).2 ++ [c None]))) ->
  post (call (logging c f)) st Q E.
Proof.
  intros HQ HE. unfold post, call, logging. cbn.
  destruct (f (world st).1) as [[a|] w] eqn:Hf; cbn; auto.
Qed.

Lemma post_logged_ask {A} (c : A -> Call) (f : W -> A * W) st
    (Q : A -> St (W * list Call) -> Prop) E :
  (forall a w, f (world st).1 = (a, w) ->
     Q a (mkSt (self st) (w, (world st).2 ++ [c a]))) ->
  post (ask (logging c f)) st Q E.
Proof.
  intros HQ. unfold post, ask, logging. cbn.
  destruct (f (world st).1) as [a w] eqn:Hf; cbn; auto.
Qed.

End LoggedCalls.

Ltac logged_step :=
  lazymatch goal with
  | |- post (bind _ _) _ _ _ => apply post_bind
  | |- post (ret _) _ _ _ => apply post_ret
  | |- post (raise _) _ _ _ => apply post_raise
  | |- post (get _) _ _ _ => apply post_get
  | |- post (modify _) _ _ _ => apply post_modify
  | |- post (call _) _ _ _ =>
      cbn [logged recsum_process_dialogue baseline_process_dialogue compute_similarity
           evaluate_single evaluate_pairwise mkdir_parent json_dump];
      apply post_logged_call; [intros ? ? ? | intros ? ?]
  | |- post (ask _) _ _ _ =>
      cbn [logged random_below_half now_isoformat now_strftime];
      apply post_logged_ask; intros ? ? ?
  | |- post (lookup_or _ _) _ _ _ => apply post_lookup_or; [intros ? ? | intros ?]
  end; cbn beta; simpl_state; cbn [fst snd].

Ltac logged_run := repeat logged_step.

Section Protocol.

Context {W : Type} (H : Collaborators W).

Implicit Types st : St (W * list Call).

Lemma print_line_run line st :
  print_line (H := logged H) line st
  = (Returns tt, mkSt (self st) (print line (world st).1, (world st).2 ++ [CallPrint line])).
Proof. done. Qed.

Lemma update_pairwise_counts_world score first st :
  post (_update_pairwise_counts score first) st
    (fun _ st' => world st' = world st) (fun _ _ => True).
Proof.
  unfold _update_pairwise_counts, metrics, for_each, count_metric, result_dict_incr.
  repeat (first [ wp_step | case_decide ]); done.
Qed.

Lemma turn_calls_post i idx ideal st pre rest q :
  sessions (self st) !! i = Some (pre ++ [mkSession (rest ++ [q])]) ->
  post (process_turn (H := logged H) i idx ideal) st
    (fun _ st' =>
       exists row mem r b sr sb lr lb flag score,
         memory (self st) !! idx = Some (row ++ [mem]) /\
         log_of st'
         = log_of st ++
           turn_calls (pre ++ [mkSession rest]) (message q) (message ideal)
             (session_str (mkSession rest)) mem r b sr sb lr lb flag score)
    (fun _ _ => True).
Proof.
  intros Hd. assert (i < length (sessions (self st))) as Hi by by eapply lookup_lt_Some.
  unfold process_turn. wp_step. wp_step.
  apply post_bind. eapply post_eq; [by apply messages_pop_run|]. simpl_state.
  apply post_bind. eapply post_eq.
  { apply the_dialogue_run. cbn. by apply list_lookup_insert_eq. }
  unfold _update_semantic_scores, append_recsum_semantic, append_baseline_semantic.
  logged_run; try done.
  eapply post_eq.
  { eapply dialogue_last_run. simpl_state. by apply list_lookup_insert_eq. }
  unfold memory_last. logged_run; try done.
  unfold _update_llm_single_scores, append_recsum_llm, append_baseline_llm.
  logged_run; try done.
  unfold _update_llm_pairwise_scores. logged_step. logged_step.
  match goal with |- post (if ?b then _ else _) _ _ _ => destruct b eqn:Hflag end.
  all: logged_step; logged_step; [|done].
  all: eapply post_mono; [apply update_pairwise_counts_world| |]; cbn beta; [|done].
  all: intros [] st' Hw; cbn [world] in Hw.
  all: match goal with Hl : last _ = Some _ |- _ => apply last_Some in Hl as [row ->] end.
  all: unfold log_of; rewrite Hw; cbn [snd]; rewrite <- ?app_assoc; cbn [app];
    unfold turn_calls.
  - eexists row, _, _, _, _, _, _, _, true, _. split; [eassumption|reflexivity].
  - eexists row, _, _, _, _, _, _, _, false, _. split; [eassumption|reflexivity].
Qed.

(** X7: the calls of one completed turn, in order, each with what it
    returned: both systems get the dialogue as it stands after the query
    was removed, and the query; the semantic scorer gets the response of
    RecSum, then the response of the baseline, each with the ideal
    response as reference; the judge gets the response of RecSum, then the
    response of the baseline; the random number is drawn; the judge gets
    the pair, the response of RecSum first exactly when the draw was
    below one half.  Every call of the judge gets the rendering of the
    final session and the last memory entry of the dialogue. *)
Theorem turn_call_protocol i idx ideal st pre rest q st' :
  sessions (self st) !! i = Some (pre ++ [mkSession (rest ++ [q])]) ->
  process_turn (H := logged H) i idx ideal st = (Returns tt, st') ->
  exists row mem r b sr sb lr lb flag score,
    memory (self st) !! idx = Some (row ++ [mem]) /\
    log_of st'
    = log_of st ++
      [ CallRecsum (pre ++ [mkSession rest]) (message q) (Some r);
        CallBaseline (pre ++ [mkSession rest]) (message q) (Some b);
        CallSimilarity r (message ideal) (Some sr);
        CallSimilarity b (message ideal) (Some sb);
        CallSingle (session_str (mkSession rest)) mem r (Some lr);
        CallSingle (session_str (mkSession rest)) mem b (Some lb);
        CallRandom flag;
        CallPairwise (session_str (mkSession rest)) mem
          (if flag then r else b) (if flag then b else r) (Some score) ].
Proof.
  intros Hd Hrun.
  exact (post_returns _ _ _ _ _ _ (turn_calls_post _ idx ideal _ _ _ _ Hd) Hrun).
Qed.

Lemma process_turn_logged i idx ideal st pre rest q :
  sessions (self st) !! i = Some (pre ++ [mkSession (rest ++ [q])]) ->
  post (process_turn (H := logged H) i idx ideal) st
    (fun _ st' =>
       sessions (self st') = <[i := pre ++ [mkSession rest]]> (sessions (self st)) /\
       message_count (self st') = message_count (self st) + 1 /\
       memory (self st') = memory (self st) /\
       exists row mem r b sr sb lr lb flag score,
         memory (self st) !! idx = Some (row ++ [mem]) /\
         log_of st'
         = log_of st ++
           turn_calls (pre ++ [mkSession rest]) (message q) (message ideal)
             (session_str (mkSession rest)) mem r b sr sb lr lb flag score)
    (fun _ _ => True).
Proof.
  intros Hd.
  eapply post_mono;
    [exact (post_and _ _ _ _ _ _ (process_turn_post (H := logged H) _ idx ideal _ _ _ _ Hd)
              (turn_calls_post _ idx ideal _ _ _ _ Hd)) | |]; cbn beta; [|done].
  by intros [] st' [(Hs & Hc & Hm & _) Hlog].
Qed.

Lemma dialogue_trace_memory pre ideal mem mem' queries turns :
  (queries = [] \/ mem' = mem) ->
  dialogue_trace (H := H) pre ideal mem' queries turns ->
  dialogue_trace (H := H) pre ideal mem queries turns.
Proof.
  intros [->| ->]; [|done]. intros Ht.
  inversion Ht as [|rest0 q0 r b sr sb lr lb flag score tail Hrest Hq Hturns].
  - constructor.
  - by destruct rest0.
Qed.

Lemma while_messages_logged bound i idx ideal st pre ms :
  sessions (self st) !! i = Some (pre ++ [mkSession ms]) ->
  post (while_messages (H := logged H) bound i idx ideal) st
    (fun _ st' =>
       sessions (self st') = <[i := pre ++ [mkSession []]]> (sessions (self st)) /\
       message_count (self st') = message_count (self st) + length ms /\
       memory (self st') = memory (self st) /\
       exists mem turns,
         (ms <> [] -> exists row, memory (self st) !! idx = Some (row ++ [mem])) /\
         dialogue_trace (H := H) pre (message ideal) mem ms turns /\
         log_of st' = log_of st ++ turns)
    (fun _ _ => True).
Proof.
  revert st ms. induction bound as [|bound IH]; intros st ms Hd.
  - cbn [while_messages]. apply post_bind. eapply post_eq; [by eapply dialogue_last_run|].
    cbn [messages]. destruct ms; [|done]. cbn.
    split_and!; [by rewrite list_insert_id | lia | done |].
    exists "", []. rewrite app_nil_r. split_and!; [done | constructor | done].
  - cbn [while_messages]. apply post_bind.
    eapply post_eq; [by eapply dialogue_last_run|]. cbn [messages].
    destruct ms as [|q rest _] using rev_ind.
    { cbn. split_and!; [by rewrite list_insert_id | lia | done |].
      exists "", []. rewrite app_nil_r. split_and!; [done | constructor | done]. }
    assert (i < length (sessions (self st))) as Hi by by eapply lookup_lt_Some.
    destruct (rest ++ [q]) as [|x l] eqn:Hms; [by destruct rest|]. rewrite <- Hms in *.
    clear Hms x l. apply post_bind.
    eapply post_mono; [apply (process_turn_logged _ _ _ _ pre rest q Hd) | |];
      cbn beta; [|done].
    intros [] st1 (Hs1 & Hc1 & Hm1 & row & mem & r & b & sr & sb & lr & lb & flag & score
                   & Hmem & Hl1).
    assert (sessions (self st1) !! i = Some (pre ++ [mkSession rest])) as Hd1.
    { rewrite Hs1. by apply list_lookup_insert_eq. }
    eapply post_mono; [apply (IH st1 rest Hd1) | |]; cbn beta; [|done].
    intros [] st2 (Hs2 & Hc2 & Hm2 & mem' & turns & Hmem' & Htrace & Hl2).
    split_and!.
    + by rewrite Hs2, Hs1, list_insert_insert_eq.
    + rewrite length_app. cbn. lia.
    + congruence.
    + exists mem, (turn_calls (pre ++ [mkSession rest]) (message q) (message ideal)
                     (session_str (mkSession rest)) mem r b sr sb lr lb flag score ++ turns).
      split_and!; [by eauto | | by rewrite Hl2, Hl1, app_assoc].
      constructor. apply (dialogue_trace_memory _ _ _ mem'); [|done].
      destruct rest as [|m rest]; [by left|right].
      destruct Hmem' as [row' Hrow']; [done|]. rewrite Hm1, Hmem in Hrow'.
      injection Hrow' as Hrow'. by apply app_inj_tail in Hrow' as [_ ->].
Qed.

Lemma process_dialogue_logged i idx st :
  post (_process_dialogue (H := logged H) i idx) st
    (fun _ st' =>
       exists pre queries ideal mem turns,
         sessions (self st) !! i = Some (pre ++ [mkSession (queries ++ [ideal])]) /\
         sessions (self st') = <[i := pre ++ [mkSession []]]> (sessions (self st)) /\
         message_count (self st') = message_count (self st) + length queries /\
         memory (self st') = memory (self st) /\
         (queries <> [] -> exists row, memory (self st) !! idx = Some (row ++ [mem])) /\
         dialogue_trace (H := H) pre (message ideal) mem queries turns /\
         log_of st' = log_of st ++ turns)
    (fun _ _ => True).
Proof.
  unfold _process_dialogue. apply post_bind.
  eapply post_mono; [apply messages_pop_post | |]; cbn beta; [|done].
  intros ideal st1 (pre & queries & Hd & ->).
  assert (i < length (sessions (self st))) as Hi by by eapply lookup_lt_Some.
  set (st1 := mkSt _ _).
  assert (sessions (self st1) !! i = Some (pre ++ [mkSession queries])) as Hd1.
  { subst st1. cbn. by apply list_lookup_insert_eq. }
  apply post_bind. eapply post_eq; [by eapply dialogue_last_run|]. cbn [messages].
  eapply post_mono; [by apply (while_messages_logged _ _ _ _ _ pre queries Hd1) | |];
    cbn beta; [|done].
  intros [] st2 (Hs2 & Hc2 & Hm2 & mem & turns & Hmem & Htrace & Hl2).
  subst st1. simpl_state. exists pre, queries, ideal, mem, turns.
  split_and!; try done. by rewrite Hs2, list_insert_insert_eq.
Qed.

(** C5: a dialogue whose final session holds [k >= 1] messages is replayed
    in exactly [k - 1] turns.  The last message is removed first and is
    the ideal response of every turn; the other messages are the
    queries, one per turn, popped from the end until none is left; the
    ideal response is never sent as a query.  Each turn counts once and
    adds one sample to every buffer.  This holds whenever the replay
    returns; it does return if no collaborator raises (and the dataset
    has the memory entry), and with [k = 1] it returns in any case, after
    zero turns.  The turns are read off the log of the calls. *)
Theorem process_dialogue_turn_count st i idx pre s k :
  sessions (self st) !! i = Some (pre ++ [s]) ->
  length (messages s) = k ->
  1 <= k ->
  (forall st',
     _process_dialogue (H := logged H) i idx st = (Returns tt, st') ->
     message_count (self st') = message_count (self st) + (k - 1) /\
     grown (k - 1) (self st) (self st') /\
     sessions (self st') !! i = Some (pre ++ [mkSession []]) /\
     exists queries ideal mem turns,
       messages s = queries ++ [ideal] /\
       length queries = k - 1 /\
       (queries <> [] -> exists row, memory (self st) !! idx = Some (row ++ [mem])) /\
       dialogue_trace (H := H) pre (message ideal) mem queries turns /\
       log_of st' = log_of st ++ turns) /\
  (k = 1 \/
   (reliable (H := H) /\ memory_ok idx (self st) /\ tally_wf (_pairwise_data (self st))) ->
   exists st', _process_dialogue (H := logged H) i idx st = (Returns tt, st')).
Proof.
  intros Hd Hk Hk1. split.
  - intros st' Hrun. subst k.
    destruct (process_dialogue_returns_count (H := logged H) _ _ _ _ _ _ Hd Hrun)
      as (Hc & Hg & Hs).
    split_and!; [done..|].
    destruct (post_returns _ _ _ _ _ _ (process_dialogue_logged i idx st) Hrun)
      as (pre' & queries & ideal & mem & turns & Hd' & _ & _ & _ & Hmem & Htrace & Hlog).
    rewrite Hd in Hd'. injection Hd' as Hd'. apply app_inj_tail in Hd' as [<- ->].
    exists queries, ideal, mem, turns. cbn [messages].
    split_and!; [done | | done..]. rewrite length_app. cbn. lia.
  - intros Hok. destruct s as [ms]. cbn [messages] in Hk.
    destruct ms as [|ideal rest _] using rev_ind; [cbn in Hk; lia|].
    pose proof (process_dialogue_post (H := logged H) _ idx _ _ _ _ Hd) as Hp.
    unfold post in Hp.
    destruct (_process_dialogue i idx st) as [[[]|e] st'] eqn:Hrun; [by exists st'|].
    exfalso. destruct Hok as [->|(Hrel & Hmem & Hwf)].
    + rewrite length_app in Hk. cbn in Hk. destruct rest; [|cbn in Hk; lia].
      by rewrite (process_dialogue_single _ _ _ _ _ Hd) in Hrun.
    + destruct e; cbn in Hp; [done | done | | done]. by apply Hp, reliable_logged.
Qed.

End Protocol.

Section RunTrace.

Context {W : Type} (H : Collaborators W).

Implicit Types st : St (W * list Call).

Lemma replay_logged total l pfx st :
  sessions (self st) = pfx ++ l ->
  post (for_each (seq (length pfx) (length l)) (calculate_step (H := logged H) total)) st
    (fun _ st' =>
       memory (self st') = memory (self st) /\
       exists k calls,
         replay_trace (H := H) total (memory (self st)) (length pfx) l k calls /\
         message_count (self st') = message_count (self st) + k /\
         log_of st' = log_of st ++ calls)
    (fun _ _ => True).
Proof.
  revert pfx st. induction l as [|d l IH]; intros pfx st Hs.
  - cbn. split; [done|]. exists 0, []. rewrite app_nil_r.
    split_and!; [constructor | lia | done].
  - cbn [length seq for_each]. apply post_bind. unfold calculate_step at 1.
    apply post_bind. eapply post_eq; [apply print_line_run|]. set (st0 := mkSt _ _).
    eapply post_mono; [apply (process_dialogue_logged H (length pfx) (length pfx) st0) | |];
      cbn beta; [|done].
    intros [] st1 (pre & queries & ideal & mem & turns & Hd & Hs1 & Hc1 & Hm1 & Hmem
                   & Htrace & Hl1).
    subst st0. simpl_state. cbn [fst snd] in *.
    rewrite Hs, list_lookup_middle in Hd by done. injection Hd as ->.
    replace (S (length pfx)) with (length (pfx ++ [pre ++ [mkSession []]]))
      by (rewrite length_app; cbn; lia).
    eapply post_mono; [apply (IH (pfx ++ [pre ++ [mkSession []]]) st1) | |]; cbn beta.
    + rewrite Hs1, Hs. replace (length pfx) with (length pfx + 0) by lia.
      rewrite insert_app_r. cbn. by rewrite <- app_assoc.
    + intros [] st2 (Hm2 & k & calls & Hreplay & Hc2 & Hl2). split; [congruence|].
      rewrite length_app in Hreplay. cbn [length] in Hreplay.
      replace (length pfx + 1) with (S (length pfx)) in Hreplay by lia.
      rewrite Hm1 in Hreplay.
      exists (length queries + k),
        (CallPrint (processing_line (length pfx) total) :: turns ++ calls).
      split_and!; [by apply (replay_trace_dialogue _ _ _ _ _ _ mem) | lia |].
      rewrite Hl2, Hl1. unfold log_of. cbn. rewrite <- !app_assoc. done.
    + done.
Qed.

Lemma calculate_logged st :
  post (calculate (H := logged H)) st
    (fun _ st' =>
       _is_calculated (self st') = true /\
       exists k calls,
         replay_trace (H := H) (length (sessions (self st))) (memory (self st)) 0
           (sessions (self st)) k calls /\
         message_count (self st') = message_count (self st) + k /\
         log_of st' = log_of st ++ calls)
    (fun _ _ => True).
Proof.
  unfold calculate. wp_step. wp_step. apply post_bind. rewrite length_seq.
  eapply post_mono; [apply (replay_logged _ (sessions (self st)) [] st eq_refl) | |];
    cbn beta; [|done].
  intros [] st1 (_ & k & calls & Hreplay & Hc & Hl). wp_step. split; [done|].
  by exists k, calls.
Qed.

(** X8: the calls of a whole run, when [calculate] returns: for each
    dialogue of the dataset, in order, the line that announces it is
    printed, then its turns are replayed, the last message of its final
    session being the ideal response and the other messages the queries,
    last one first; the turn counter has advanced by the number of
    turns.  Nothing else is called. *)
Theorem calculate_call_trace st st' :
  calculate (H := logged H) st = (Returns tt, st') ->
  exists k calls,
    replay_trace (H := H) (length (sessions (self st))) (memory (self st)) 0
      (sessions (self st)) k calls /\
    message_count (self st') = message_count (self st) + k /\
    log_of st' = log_of st ++ calls.
Proof.
  intros Hrun.
  by destruct (post_returns _ _ _ _ _ _ (calculate_logged st) Hrun) as [_ Hcalls].
Qed.

End RunTrace.

(** ** Printing and saving *)

Section PrintTrace.

Context {W : Type} (H : Collaborators W).

#[local] Existing Instance logged.

Implicit Types st : St (W * list Call).

Lemma printed_nil st : printed [] st st.
Proof. split; [done|]. by rewrite app_nil_r. Qed.

Lemma printed_app l1 l2 st1 st2 st3 :
  printed l1 st1 st2 -> printed l2 st2 st3 -> printed (l1 ++ l2) st1 st3.
Proof.
  intros [Hs1 Hl1] [Hs2 Hl2]. split; [congruence|].
  by rewrite Hl2, Hl1, fmap_app, app_assoc.
Qed.

Lemma print_line_post line st (Q : unit -> St (W * list Call) -> Prop) E :
  (forall st', printed [line] st st' -> Q tt st') -> post (print_line line) st Q E.
Proof. intros HQ. eapply post_eq; [apply print_line_run|]. by apply HQ. Qed.

Ltac print_step :=
  lazymatch goal with
  | |- post (bind (print_line _) _) _ _ _ =>
      apply post_bind, print_line_post; intros ? ?
  | |- post (print_line _) _ _ _ => apply print_line_post; intros ? ?
  end.

Ltac printed_chain :=
  repeat match goal with
  | Hp : printed ?l ?a ?b, Hq : printed ?l' ?b ?c |- _ =>
      pose proof (printed_app _ _ _ _ _ Hp Hq); clear Hp Hq
  end.

Lemma print_semantic_post r st :
  post (_print_semantic_results r) st
    (fun _ st' => printed (semantic_lines (H := H) r) st st') (fun _ _ => False).
Proof.
  unfold _print_semantic_results. repeat print_step. printed_chain. assumption.
Qed.

Lemma print_llm_single_post r st :
  post (_print_llm_single_results r) st
    (fun _ st' => printed (llm_single_lines (H := H) r) st st') (fun _ _ => False).
Proof.
  unfold _print_llm_single_results. repeat print_step. printed_chain. assumption.
Qed.

Lemma print_llm_pairwise_post r st :
  post (_print_llm_pairwise_results r) st
    (fun _ st' => printed (llm_pairwise_lines (H := H) r) st st')
    (fun _ _ => ~ tally_wf (MCPResults.pairwise_results r)).
Proof.
  unfold _print_llm_pairwise_results, llm_pairwise_lines.
  case_decide; [by print_step|].
  repeat print_step. unfold metrics. cbn [for_each].
  repeat lazymatch goal with
    | |- post (bind (print_line _) _) _ _ _ => print_step
    | |- post (print_line _) _ _ _ => print_step
    | |- post (lookup_or _ (tally_attr _ ?m !! _)) _ _ _ =>
        apply post_lookup_or;
        [ intros ? ?
        | intros Hn Hwf; destruct (Hwf m) as (? & ? & ?); rewrite Hn in *;
          by eapply is_Some_None ]
    | |- post (bind _ _) _ _ _ => apply post_bind
    | |- post (ret _) _ _ _ => apply post_ret
    end.
  printed_chain.
  repeat match goal with Hq : _ !! _ = Some _ |- _ => rewrite Hq; clear Hq end.
  assumption.
Qed.

Lemma print_report_post r st :
  post (_print_semantic_results r;' _print_llm_single_results r;'
        _print_llm_pairwise_results r) st
    (fun _ st' => printed (report_lines (H := H) r) st st')
    (fun _ _ => ~ tally_wf (MCPResults.pairwise_results r)).
Proof.
  apply post_bind. eapply post_mono; [apply print_semantic_post | |]; cbn beta; [|done].
  intros [] st1 Hp1.
  apply post_bind. eapply post_mono; [apply print_llm_single_post | |]; cbn beta; [|done].
  intros [] st2 Hp2.
  eapply post_mono; [apply print_llm_pairwise_post | |]; cbn beta; [|done].
  intros [] st3 Hp3. unfold report_lines.
  eapply printed_app; [done|]. by eapply printed_app.
Qed.

Lemma results_logged st :
  post results st
    (fun r st' =>
       _is_calculated (self st') = true /\
       exists calls timestamp,
         r = report timestamp (self st') /\
         replay_on_demand (H := H) st st' calls /\
         log_of st' = log_of st ++ calls ++ [CallNow timestamp])
    (fun _ _ => _is_calculated (self st) = false).
Proof.
  unfold results, replay_on_demand. wp_step. wp_step.
  destruct (_is_calculated (self st)) eqn:Hc.
  - logged_run. split; [done|]. by exists [], a.
  - apply post_bind.
    eapply post_mono; [apply (calculate_logged H st) | |]; cbn beta; [|done].
    intros [] st1 (Hmark & k & calls & Hreplay & Hk & Hl). logged_run. split; [done|].
    exists calls, a. split_and!; [done | by exists k |].
    unfold log_of in *. cbn. by rewrite Hl, <- app_assoc.
Qed.

Lemma print_results_post st :
  post print_results st
    (fun _ st' =>
       exists calls timestamp,
         replay_on_demand (H := H) st st' calls /\
         log_of st'
         = log_of st ++ [CallPrint (processed_line (message_count (self st)))]
             ++ calls ++ [CallNow timestamp]
             ++ (CallPrint <$> report_lines (H := H) (report timestamp (self st'))))
    (fun _ st' =>
       _is_calculated (self st) = true -> ~ tally_wf (_pairwise_data (self st))).
Proof.
  unfold print_results. wp_step. wp_step. apply post_bind.
  eapply post_eq; [apply print_line_run|]. set (st0 := mkSt _ _).
  apply post_bind. eapply post_mono; [apply (results_logged st0) | |]; cbn beta;
    [|subst st0; simpl_state; congruence].
  intros r st1 (Hmark & calls & ts & -> & Hreplay & Hl).
  eapply post_mono; [apply print_report_post | |]; cbn beta.
  - intros [] st2 [Hs Hlog]. exists calls, ts. rewrite Hs. split.
    + unfold replay_on_demand in *. subst st0. simpl_state.
      destruct (_is_calculated (self st)); [by rewrite Hs|]. by rewrite Hs.
    + rewrite Hlog, Hl. subst st0. unfold log_of. cbn. by rewrite <- !app_assoc.
  - intros _ _ Hn Hc. unfold replay_on_demand in Hreplay. subst st0. simpl_state.
    rewrite Hc in Hreplay. destruct Hreplay as [Hself _]. cbn in Hn.
    by rewrite Hself in Hn.
Qed.

(** X9: what [print_results] does when it returns, in order: it prints
    the number of messages processed so far; then, on an object that is
    not yet calculated, it replays the dataset, each dialogue announced by
    its line (so the turns it counts come after the line that reports the
    count); then it reads the clock for the report; then it prints the
    three tables of the report of the calculator as it now is. *)
Theorem print_results_trace st st' :
  print_results st = (Returns tt, st') ->
  exists calls timestamp,
    replay_on_demand (H := H) st st' calls /\
    log_of st'
    = log_of st ++ [CallPrint (processed_line (message_count (self st)))]
        ++ calls ++ [CallNow timestamp]
        ++ (CallPrint <$> report_lines (H := H) (report timestamp (self st'))).
Proof.
  intros Hrun. exact (post_returns _ _ _ _ _ _ (print_results_post st) Hrun).
Qed.

(** X10: on a calculated object whose tally has its three keys,
    [print_results] returns; it calls no system, scorer or judge, only
    reads the clock and prints (the count, then the tables of the report
    at that time), and leaves the calculator as it is. *)
Theorem print_results_calculated st :
  _is_calculated (self st) = true ->
  tally_wf (_pairwise_data (self st)) ->
  exists st' timestamp,
    print_results st = (Returns tt, st') /\
    self st' = self st /\
    log_of st'
    = log_of st ++ CallPrint (processed_line (message_count (self st)))
        :: CallNow timestamp
        :: (CallPrint <$> report_lines (H := H) (report timestamp (self st))).
Proof.
  intros Hc Hwf. pose proof (print_results_post st) as Hp. unfold post in Hp.
  destruct (print_results st) as [[[]|e] st'].
  - destruct Hp as (calls & ts & Hreplay & Hl). unfold replay_on_demand in Hreplay.
    rewrite Hc in Hreplay. destruct Hreplay as [Hs ->].
    exists st', ts. split_and!; [done | done |]. by rewrite Hl, Hs.
  - by destruct (Hp Hc).
Qed.

Lemma save_results_post filepath st :
  post (save_results_to_json filepath) st
    (fun path st' =>
       exists named calls timestamp,
         match filepath with
         | None =>
             exists stamp,
               named = [CallStrftime stamp] /\ path = "mcp_results_" +:+ stamp +:+ ".json"
         | Some given => named = [] /\ path = given
         end /\
         replay_on_demand (H := H) st st' calls /\
         log_of st'
         = log_of st ++ named ++ [CallMkdir path (Some tt)] ++ calls
             ++ [CallNow timestamp;
                 CallDump path (report timestamp (self st')) (Some tt)])
    (fun _ _ => True).
Proof.
  unfold save_results_to_json. destruct filepath as [given|].
  - logged_run; [|done]. destruct a.
    eapply post_mono; [apply results_logged | |]; cbn beta; [|done].
    simpl_state. intros r st1 (_ & calls & ts & -> & Hreplay & Hl).
    logged_run; [|done]. destruct a. exists [], calls, ts.
    split; [done|]. split; [done|].
    unfold log_of in *. cbn in *. rewrite Hl. by rewrite <- !app_assoc.
  - logged_run; [|done]. destruct a0.
    eapply post_mono; [apply results_logged | |]; cbn beta; [|done].
    simpl_state. intros r st1 (_ & calls & ts & -> & Hreplay & Hl).
    logged_run; [|done]. destruct a0. exists [CallStrftime a], calls, ts.
    split; [by exists a|]. split; [done|].
    unfold log_of in *. cbn in *. rewrite Hl. by rewrite <- !app_assoc.
Qed.

(** X12: what [save_results_to_json] does when it returns, in order: it
    reads the clock for the file name when none is given (the name is
    made of what the clock returned); it makes the directory; then it
    builds the report, which on an object not yet calculated replays the
    dataset first and in any case reads the clock; then it writes the
    report.  What is written is the report of the calculator as the call
    leaves it, and the path returned is the path written to. *)
Theorem save_results_trace filepath st path st' :
  save_results_to_json filepath st = (Returns path, st') ->
  exists named calls timestamp,
    match filepath with
    | None =>
        exists stamp,
          named = [CallStrftime stamp] /\ path = "mcp_results_" +:+ stamp +:+ ".json"
    | Some given => named = [] /\ path = given
    end /\
    replay_on_demand (H := H) st st' calls /\
    log_of st'
    = log_of st ++ named ++ [CallMkdir path (Some tt)] ++ calls
        ++ [CallNow timestamp; CallDump path (report timestamp (self st')) (Some tt)].
Proof.
  intros Hrun. exact (post_returns _ _ _ _ _ _ (save_results_post filepath st) Hrun).
Qed.

Lemma main_post st :
  post main st
    (fun _ st' =>
       exists k calls shown stamp saved,
         let path := "mcp_results_" +:+ stamp +:+ ".json" in
         replay_trace (H := H) (length (sessions (self st))) (memory (self st)) 0
           (sessions (self st)) k calls /\
         message_count (self st') = message_count (self st) + k /\
         log_of st'
         = log_of st
             ++ [CallPrint "Starting MCP metrics calculation..."] ++ calls
             ++ [CallPrint "Calculation completed. Results:";
                 CallPrint (processed_line (message_count (self st')));
                 CallNow shown]
             ++ (CallPrint <$> report_lines (H := H) (report shown (self st')))
             ++ [CallStrftime stamp;
                 CallMkdir path (Some tt);
                 CallNow saved;
                 CallDump path (report saved (self st')) (Some tt);
                 CallPrint (newline +:+ "Results have been saved to: " +:+ path)])
    (fun _ _ => True).
Proof.
  unfold main. apply post_bind. eapply post_eq; [apply print_line_run|].
  set (st1 := mkSt _ _). apply post_bind.
  eapply post_mono; [apply (calculate_logged H st1) | |]; cbn beta; [|done].
  intros [] st2 (Hmark & k & calls & Hreplay & Hk & Hl).
  apply post_bind. eapply post_eq; [apply print_line_run|].
  set (st3 := mkSt _ _). apply post_bind.
  eapply post_mono; [apply (print_results_post st3) | |]; cbn beta; [|done].
  intros [] st4 (calls4 & shown & Hreplay4 & Hl4).
  unfold replay_on_demand in Hreplay4. subst st3. simpl_state. rewrite Hmark in Hreplay4.
  destruct Hreplay4 as [Hself4 ->].
  apply post_bind.
  eapply post_mono; [apply (save_results_post None st4) | |]; cbn beta; [|done].
  intros path st5 (named & calls5 & saved & (stamp & -> & ->) & Hreplay5 & Hl5).
  unfold replay_on_demand in Hreplay5. rewrite Hself4, Hmark in Hreplay5.
  destruct Hreplay5 as [Hself5 ->].
  eapply post_eq; [apply print_line_run|].
  exists k, calls, shown, stamp, saved. subst st1. simpl_state. cbn zeta.
  rewrite Hself5. split_and!; [done | done |].
  unfold log_of in *. cbn in *. rewrite Hl5, Hl4, Hl, ?Hself5, ?Hself4. cbn.
  rewrite <- !app_assoc. done.
Qed.

(** X13: the whole program, on the object the constructor has built, when
    it returns: it announces the calculation; replays the dataset once,
    each dialogue announced by its line; announces the results; prints
    the number of processed messages, which is the count after the
    replay; reads the clock and prints the tables of the report; reads
    the clock for the file name, makes the directory, reads the clock
    again for a second report of the same calculator, writes it, and
    prints the path it wrote to. *)
Theorem main_trace st st' :
  main st = (Returns tt, st') ->
  exists k calls shown stamp saved,
    let path := "mcp_results_" +:+ stamp +:+ ".json" in
    replay_trace (H := H) (length (sessions (self st))) (memory (self st)) 0
      (sessions (self st)) k calls /\
    message_count (self st') = message_count (self st) + k /\
    log_of st'
    = log_of st
        ++ [CallPrint "Starting MCP metrics calculation..."] ++ calls
        ++ [CallPrint "Calculation completed. Results:";
            CallPrint (processed_line (message_count (self st')));
            CallNow shown]
        ++ (CallPrint <$> report_lines (H := H) (report shown (self st')))
        ++ [CallStrftime stamp;
            CallMkdir path (Some tt);
            CallNow saved;
            CallDump path (report saved (self st')) (Some tt);
            CallPrint (newline +:+ "Results have been saved to: " +:+ path)].
Proof.
  intros Hrun. exact (post_returns _ _ _ _ _ _ (main_post st) Hrun).
Qed.

End PrintTrace.

(** ** Where the scores go *)

Section Routing.

Context {W : Type} `{Collaborators W}.

Implicit Types st : St W.

Lemma answered_intro {A} (f : W -> option A * W) w a w' : f w = (Some a, w') -> answered f a.
Proof. intros Hf. exists w. by rewrite Hf. Qed.

Lemma turn_scores_post i idx ideal st pre rest q :
  sessions (self st) !! i = Some (pre ++ [mkSession (rest ++ [q])]) ->
  post (process_turn i idx ideal) st
    (fun _ st' =>
       exists r b mem sr sb lr lb,
         answered (recsum_process_dialogue (pre ++ [mkSession rest]) (message q)) r /\
         answered (baseline_process_dialogue (pre ++ [mkSession rest]) (message q)) b /\
         answered (compute_similarity r (message ideal)) sr /\
         answered (compute_similarity b (message ideal)) sb /\
         answered (evaluate_single (session_str (mkSession rest)) mem r) lr /\
         answered (evaluate_single (session_str (mkSession rest)) mem b) lb /\
         buffers (self st')
         = zip_with (fun buffer x => buffer ++ [x]) (buffers (self st))
             (score_row sr lr ++ score_row sb lb))
    (fun _ _ => True).
Proof.
  intros Hd. assert (i < length (sessions (self st))) as Hi by by eapply lookup_lt_Some.
  unfold process_turn. wp_step. wp_step.
  apply post_bind. eapply post_eq; [by apply messages_pop_run|]. simpl_state.
  apply post_bind. eapply post_eq.
  { apply the_dialogue_run. cbn. by apply list_lookup_insert_eq. }
  unfold _update_semantic_scores, append_recsum_semantic, append_baseline_semantic.
  wp; try done.
  eapply post_eq.
  { eapply dialogue_last_run. simpl_state. by apply list_lookup_insert_eq. }
  unfold memory_last. wp; try done.
  unfold _update_llm_single_scores, append_recsum_llm, append_baseline_llm.
  wp; try done.
  unfold _update_llm_pairwise_scores. wp_step. wp_step.
  match goal with |- post (if ?b then _ else _) _ _ _ => destruct b end.
  all: wp_step; wp_step; [|done].
  all: eapply post_mono; [apply update_pairwise_counts_post| |]; cbn beta; [|done].
  all: intros [] st' [Ht _]; cbn in Ht; rewrite Ht.
  all: eexists _, _, _, _, _, _, _; split_and!; [by eapply answered_intro..|done].
Qed.

(** X11: Where the scores of a turn go: each of the twelve buffers gets one
    sample, the field of its name from the score of its system's
    response (the semantic score against the ideal response, the judge's
    score with the rendered session and the memory entry). *)
Theorem turn_records_scores i idx ideal st pre rest q st' :
  sessions (self st) !! i = Some (pre ++ [mkSession (rest ++ [q])]) ->
  process_turn i idx ideal st = (Returns tt, st') ->
  exists r b mem sr sb lr lb,
    answered (recsum_process_dialogue (pre ++ [mkSession rest]) (message q)) r /\
    answered (baseline_process_dialogue (pre ++ [mkSession rest]) (message q)) b /\
    answered (compute_similarity r (message ideal)) sr /\
    answered (compute_similarity b (message ideal)) sb /\
    answered (evaluate_single (session_str (mkSession rest)) mem r) lr /\
    answered (evaluate_single (session_str (mkSession rest)) mem b) lb /\
    buffers (self st')
    = zip_with (fun buffer x => buffer ++ [x]) (buffers (self st))
        (score_row sr lr ++ score_row sb lb).
Proof.
  intros Hd Hrun.
  exact (post_returns _ _ _ _ _ _ (turn_scores_post _ idx ideal _ _ _ _ Hd) Hrun).
Qed.

End Routing.


(** ** Instances of the further properties *)

Module MoreExamples.

Import Stub StubLog.

Lemma calculate_completes_witness :
  exists st',
    calculate (H := steady) one_dialogue = (Returns tt, st') /\
    _is_calculated (self st') = true /\
    message_count (self st')
    = message_count (self one_dialogue)
      + sum_list (turns_of <$> sessions (self one_dialogue)) /\
    grown (sum_list (turns_of <$> sessions (self one_dialogue)))
      (self one_dialogue) (self st') /\
    PairwiseResults.get_total_count (_pairwise_data (self st'))
    = PairwiseResults.get_total_count (_pairwise_data (self one_dialogue))
      + sum_list (turns_of <$> sessions (self one_dialogue)).
Proof.
  apply (calculate_completes (H := steady) one_dialogue).
  - repeat constructor. exists [], (mkSession [user "q1"; user "q2"; user "ideal"]).
    split; [reflexivity | discriminate].
  - intros i Hi. cbn in Hi. destruct i; [|lia]. exists [], "memory". reflexivity.
  - apply reliable_steady.
  - apply tally_wf_new.
Defined.

Lemma fresh_results_consistent_witness :
  exists r st1,
    results (H := steady) (mkSt (CalculateMCPMetrics.init [three_turns] [["memory"]] 30) 0)
    = (Returns r, st1) /\
    Forall (fun c => c = Metadata.message_count (MCPResults.metadata r)) (report_counts r) /\
    PairwiseResults.get_total_count (MCPResults.pairwise_results r)
    = Metadata.message_count (MCPResults.metadata r).
Proof.
  eexists _, _. split; [vm_compute; reflexivity|].
  eapply (fresh_results_consistent (H := steady) [three_turns] [["memory"]] 30 0).
  vm_compute. reflexivity.
Defined.

Lemma failed_run_cannot_resume_witness :
  let failed :=
    (_process_dialogue (H := flaky) 1 1
       (_process_dialogue (H := flaky) 0 0 (Stub.start [three_turns; boom_second])).2).2 in
  let announced :=
    mkSt (self failed)
      (print (Collaborators := flaky)
         (processing_line 0 (length (sessions (self failed)))) (world failed)) in
  calculate (H := flaky) failed = (Raises IndexError, announced) /\
  results (H := flaky) failed = (Raises IndexError, announced).
Proof.
  apply (failed_run_cannot_resume (H := flaky) (Stub.start [three_turns; boom_second]) 1
           (_process_dialogue (H := flaky) 0 0 (Stub.start [three_turns; boom_second])).2
           ExternalError
           (_process_dialogue (H := flaky) 1 1
              (_process_dialogue (H := flaky) 0 0
                 (Stub.start [three_turns; boom_second])).2).2).
  - lia.
  - vm_compute. lia.
  - vm_compute. reflexivity.
  - vm_compute. reflexivity.
  - vm_compute. reflexivity.
Defined.

Lemma failed_turn_effects_witness :
  sessions (self (process_turn (H := flaky) 0 0 (user "ideal") (Stub.start [boom_last])).2)
  = <[0 := [] ++ [mkSession [user "q1"]]]> (sessions (self (Stub.start [boom_last]))) /\
  message_count
    (self (process_turn (H := flaky) 0 0 (user "ideal") (Stub.start [boom_last])).2)
  = message_count (self (Stub.start [boom_last])) + 1 /\
  _pairwise_data
    (self (process_turn (H := flaky) 0 0 (user "ideal") (Stub.start [boom_last])).2)
  = _pairwise_data (self (Stub.start [boom_last])) /\
  grown_at_most_one (self (Stub.start [boom_last]))
    (self (process_turn (H := flaky) 0 0 (user "ideal") (Stub.start [boom_last])).2).
Proof.
  apply (failed_turn_effects (H := flaky) 0 0 (user "ideal") (Stub.start [boom_last])
           [] [user "q1"] (user "boom") ExternalError).
  - reflexivity.
  - apply tally_wf_new.
  - vm_compute. reflexivity.
Defined.

Lemma from_values_nan_witness :
  is_NaN (MetricStats.mean (MetricStats.from_values [1; nan; 3]%float)) /\
  is_NaN (MetricStats.std (MetricStats.from_values [1; nan; 3]%float)) /\
  is_NaN (MetricStats.min (MetricStats.from_values [1; nan; 3]%float)) /\
  is_NaN (MetricStats.max (MetricStats.from_values [1; nan; 3]%float)).
Proof.
  apply (from_values_nan [1; nan; 3]%float).
  apply Exists_cons_tl, Exists_cons_hd. reflexivity.
Defined.

Lemma from_values_extremes_attained_witness :
  MetricStats.min (MetricStats.from_values [tenth; 3; 1]%float) ∈ [tenth; 3; 1]%float /\
  MetricStats.max (MetricStats.from_values [tenth; 3; 1]%float) ∈ [tenth; 3; 1]%float.
Proof.
  apply (from_values_extremes_attained [tenth; 3; 1]%float).
  - discriminate.
  - repeat constructor.
Defined.

Lemma process_dialogue_turn_count_witness :
  exists st',
    _process_dialogue (H := logged steady) 0 0 (logged_start [three_turns])
    = (Returns tt, st') /\
    message_count (self st') = message_count (self (logged_start [three_turns])) + (3 - 1) /\
    grown (3 - 1) (self (logged_start [three_turns])) (self st') /\
    sessions (self st') !! 0 = Some ([] ++ [mkSession []]) /\
    exists queries ideal mem turns,
      [user "q1"; user "q2"; user "ideal"] = queries ++ [ideal] /\
      length queries = 3 - 1 /\
      (queries <> [] ->
       exists row, memory (self (logged_start [three_turns])) !! 0 = Some (row ++ [mem])) /\
      dialogue_trace (H := steady) [] (message ideal) mem queries turns /\
      log_of st' = log_of (logged_start [three_turns]) ++ turns.
Proof.
  destruct (process_dialogue_turn_count steady (logged_start [three_turns]) 0 0 []
              (mkSession [user "q1"; user "q2"; user "ideal"]) 3)
    as [Hcount Hreturns].
  - reflexivity.
  - reflexivity.
  - lia.
  - destruct Hreturns as [st' Hrun].
    + right. split; [apply reliable_steady|]. split.
      * exists [], "memory". reflexivity.
      * apply tally_wf_new.
    + exists st'. split; [exact Hrun | exact (Hcount st' Hrun)].
Defined.

Lemma turn_call_protocol_witness :
  exists row mem r b sr sb lr lb flag score,
    memory (self (logged_start [three_turns])) !! 0 = Some (row ++ [mem]) /\
    log_of (process_turn (H := logged steady) 0 0 (user "ideal")
              (logged_start [three_turns])).2
    = log_of (logged_start [three_turns]) ++
      [ CallRecsum ([] ++ [mkSession [user "q1"; user "q2"]]) (message (user "ideal"))
          (Some r);
        CallBaseline ([] ++ [mkSession [user "q1"; user "q2"]]) (message (user "ideal"))
          (Some b);
        CallSimilarity r (message (user "ideal")) (Some sr);
        CallSimilarity b (message (user "ideal")) (Some sb);
        CallSingle
          (session_str (Collaborators := steady) (mkSession [user "q1"; user "q2"]))
          mem r (Some lr);
        CallSingle
          (session_str (Collaborators := steady) (mkSession [user "q1"; user "q2"]))
          mem b (Some lb);
        CallRandom flag;
        CallPairwise
          (session_str (Collaborators := steady) (mkSession [user "q1"; user "q2"]))
          mem (if flag then r else b) (if flag then b else r) (Some score) ].
Proof.
  apply (turn_call_protocol steady 0 0 (user "ideal") (logged_start [three_turns])
           [] [user "q1"; user "q2"] (user "ideal")).
  - reflexivity.
  - vm_compute. reflexivity.
Defined.

Lemma calculate_call_trace_witness :
  exists k calls,
    replay_trace (H := steady) (length (sessions (self (logged_start [three_turns]))))
      (memory (self (logged_start [three_turns]))) 0
      (sessions (self (logged_start [three_turns]))) k calls /\
    message_count (self (calculate (H := logged steady) (logged_start [three_turns])).2)
    = message_count (self (logged_start [three_turns])) + k /\
    log_of (calculate (H := logged steady) (logged_start [three_turns])).2
    = log_of (logged_start [three_turns]) ++ calls.
Proof.
  apply (calculate_call_trace steady (logged_start [three_turns])).
  vm_compute. reflexivity.
Defined.

Lemma print_results_trace_witness :
  exists calls timestamp,
    replay_on_demand (H := steady) (logged_start [three_turns])
      (print_results (H := logged steady) (logged_start [three_turns])).2 calls /\
    log_of (print_results (H := logged steady) (logged_start [three_turns])).2
    = log_of (logged_start [three_turns])
        ++ [CallPrint (processed_line (message_count (self (logged_start [three_turns]))))]
        ++ calls ++ [CallNow timestamp]
        ++ (CallPrint <$>
              report_lines (H := steady)
                (report timestamp
                   (self (print_results (H := logged steady)
                            (logged_start [three_turns])).2))).
Proof.
  apply (print_results_trace steady (logged_start [three_turns])).
  vm_compute. reflexivity.
Defined.

Lemma print_results_calculated_witness :
  exists st' timestamp,
    print_results (H := logged steady)
      (calculate (H := logged steady) (logged_start [three_turns])).2
    = (Returns tt, st') /\
    self st' = self (calculate (H := logged steady) (logged_start [three_turns])).2 /\
    log_of st'
    = log_of (calculate (H := logged steady) (logged_start [three_turns])).2
        ++ CallPrint
             (processed_line
                (message_count
                   (self (calculate (H := logged steady) (logged_start [three_turns])).2)))
           :: CallNow timestamp
           :: (CallPrint <$>
                 report_lines (H := steady)
                   (report timestamp
                      (self (calculate (H := logged steady)
                               (logged_start [three_turns])).2))).
Proof.
  apply (print_results_calculated steady
           (calculate (H := logged steady) (logged_start [three_turns])).2).
  - vm_compute. reflexivity.
  - intros metric. destruct metric; vm_compute; repeat split; eexists; reflexivity.
Defined.

Lemma turn_records_scores_witness :
  exists r b mem sr sb lr lb,
    answered (recsum_process_dialogue (Collaborators := steady)
                ([] ++ [mkSession [user "q1"; user "q2"]]) (message (user "ideal"))) r /\
    answered (baseline_process_dialogue (Collaborators := steady)
                ([] ++ [mkSession [user "q1"; user "q2"]]) (message (user "ideal"))) b /\
    answered (compute_similarity (Collaborators := steady) r (message (user "ideal"))) sr /\
    answered (compute_similarity (Collaborators := steady) b (message (user "ideal"))) sb /\
    answered (evaluate_single (Collaborators := steady)
                (session_str (Collaborators := steady) (mkSession [user "q1"; user "q2"]))
                mem r) lr /\
    answered (evaluate_single (Collaborators := steady)
                (session_str (Collaborators := steady) (mkSession [user "q1"; user "q2"]))
                mem b) lb /\
    buffers (self (process_turn (H := steady) 0 0 (user "ideal") one_dialogue).2)
    = zip_with (fun buffer x => buffer ++ [x]) (buffers (self one_dialogue))
        (score_row sr lr ++ score_row sb lb).
Proof.
  apply (turn_records_scores (H := steady) 0 0 (user "ideal") one_dialogue
           [] [user "q1"; user "q2"] (user "ideal")).
  - reflexivity.
  - vm_compute. reflexivity.
Defined.

Lemma save_results_trace_witness :
  exists named calls timestamp,
    (named = [] /\ "out/report.json" = "out/report.json") /\
    replay_on_demand (H := steady) (logged_start [three_turns])
      (save_results_to_json (H := logged steady) (Some "out/report.json")
         (logged_start [three_turns])).2 calls /\
    log_of (save_results_to_json (H := logged steady) (Some "out/report.json")
              (logged_start [three_turns])).2
    = log_of (logged_start [three_turns]) ++ named
        ++ [CallMkdir "out/report.json" (Some tt)] ++ calls
        ++ [CallNow timestamp;
            CallDump "out/report.json"
              (report timestamp
                 (self (save_results_to_json (H := logged steady)
                          (Some "out/report.json") (logged_start [three_turns])).2))
              (Some tt)].
Proof.
  apply (save_results_trace steady (Some "out/report.json")
           (logged_start [three_turns]) "out/report.json").
  vm_compute. reflexivity.
Defined.

Lemma main_trace_witness :
  exists k calls shown stamp saved,
    let path := "mcp_results_" +:+ stamp +:+ ".json" in
    replay_trace (H := steady) (length (sessions (self (logged_start [three_turns]))))
      (memory (self (logged_start [three_turns]))) 0
      (sessions (self (logged_start [three_turns]))) k calls /\
    message_count (self (main (H := logged steady) (logged_start [three_turns])).2)
    = message_count (self (logged_start [three_turns])) + k /\
    log_of (main (H := logged steady) (logged_start [three_turns])).2
    = log_of (logged_start [three_turns])
        ++ [CallPrint "Starting MCP metrics calculation..."] ++ calls
        ++ [CallPrint "Calculation completed. Results:";
            CallPrint
              (processed_line
                 (message_count
                    (self (main (H := logged steady) (logged_start [three_turns])).2)));
            CallNow shown]
        ++ (CallPrint <$>
              report_lines (H := steady)
                (report shown
                   (self (main (H := logged steady) (logged_start [three_turns])).2)))
        ++ [CallStrftime stamp;
            CallMkdir path (Some tt);
            CallNow saved;
            CallDump path
              (report saved
                 (self (main (H := logged steady) (logged_start [three_turns])).2))
              (Some tt);
            CallPrint (newline +:+ "Results have been saved to: " +:+ path)].
Proof.
  apply (main_trace steady (logged_start [three_turns])).
  vm_compute. reflexivity.
Defined.

End MoreExamples.
